(** * Favorite Colors MCP server: color store and request dispatcher

    A shallow embedding of [internal/storage/colors.go],
    [internal/mcp/server.go], [main.go] and the transports, and the
    properties of the store, of the JSON-RPC dispatcher and of the
    transports proved over it.

    - [storage]: the methods of [ColorStorage] as functions on the list of
      colors, with the history of the calls made on the mutex.
    - [slices]: the same methods on the slice [cs.colors] in memory, with
      backing arrays shared between slices; they refine those of [storage].
    - [mcp]: the protocol structures and [Server.HandleRequest].
    - [goroutines]: calls of the store made at the same time, as
      interleavings of their statements under the lock.
    - [main]: the server of [main.go], whose handlers work on the package
      variable [favoriteColors], and its stdio loop.
    - [transport]: [Run] of [internal/transport/stdio.go], and [handleMCP]
      and [corsHandler] of the HTTP transport.

    Go strings are byte sequences compared bytewise; they are modelled by
    [string] (a list of 8-bit characters).  Slice lengths and loop indices
    are [nat]: they are bounded by the size of the slice they come from. *)

From Stdlib Require Import ZArith String Ascii List Lia.
From Stdlib Require Import Floats.SpecFloat.
From stdpp Require Import base option list gmap strings pretty.

Set Default Proof Using "Type".
Local Open Scope string_scope.
Local Open Scope list_scope.
Local Open Scope nat_scope.

(** ** fmt.Sprintf pieces *)

(** The line feed written [\n] in the Go format strings. *)
Definition nl : string := String (ascii_of_nat 10) EmptyString.

(** The verb [%d] applied to a slice length or a loop index. *)
Definition fmt_d (n : nat) : string := pretty n.

(** ** State passing

    A method with a pointer receiver reads and writes the receiver: it is a
    function from the receiver's state to a result and the new state. *)

Definition State (S A : Type) : Type := S -> A * S.

Definition ret {S A} (a : A) : State S A := fun s => (a, s).

Definition bind {S A B} (m : State S A) (k : A -> State S B) : State S B :=
  fun s => let '(a, s') := m s in k a s'.

Notation "'let*' x ':=' m 'in' k" := (bind m (fun x => k))
  (at level 10, x pattern, m at level 100, k at level 200).

(** * internal/storage/colors.go *)

Module storage.

(** The calls made on [cs.mutex].  The store keeps their history, so that a
    caller that never enters a store method is told apart from one that
    does: every method starts by taking the lock. *)
Inductive MutexCall : Set := Lock | Unlock | RLock | RUnlock.

Record ColorStorage : Type := mkColorStorage {
  colors : list string;
  mutex : list MutexCall
}.

Definition NewColorStorage : ColorStorage :=
  {| colors := []; mutex := [] |}.

(** [cs.mutex.Lock(); defer cs.mutex.Unlock()] around a method body that
    works on [cs.colors]: the lock is taken on entry and given back at every
    return. *)
Definition locked {A} (acquire release : MutexCall)
    (body : State (list string) A) : State ColorStorage A :=
  fun cs =>
    let '(a, l) := body (colors cs) in
    (a, {| colors := l; mutex := mutex cs ++ [acquire; release] |}).

(** The loop [for _, existingColor := range l { if existingColor == color
    { return ... } }]: [true] when the return inside the loop is taken. *)
Fixpoint range_find (color : string) (l : list string) : bool :=
  match l with
  | [] => false
  | existingColor :: rest =>
      if decide (existingColor = color) then true else range_find color rest
  end.

(** The loop [for i, existingColor := range l] of [RemoveColor]: the index
    [i] at which the body returns, counted from [i0]. *)
Fixpoint range_index (color : string) (i0 : nat) (l : list string) : option nat :=
  match l with
  | [] => None
  | existingColor :: rest =>
      if decide (existingColor = color) then Some i0
      else range_index color (S i0) rest
  end.

(** [make([]string, n)] *)
Definition make (n : nat) : list string := replicate n "".

(** [copy(dst, src)]: the first [min (len dst) (len src)] elements of [dst]
    are overwritten. *)
Definition copy (dst src : list string) : list string :=
  let n := Nat.min (length dst) (length src) in
  take n src ++ drop n dst.

Definition AddColor_body (color : string) : State (list string) (string * bool) :=
  fun l =>
    if range_find color l then
      (("Color '" +:+ color +:+ "' is already in your favorites", false), l)
    else
      (("Successfully added '" +:+ color +:+ "' to your favorite colors!", true),
       l ++ [color]).

Definition AddColor (color : string) : State ColorStorage (string * bool) :=
  locked Lock Unlock (AddColor_body color).

(** The loop [for i, color := range colors { text += Sprintf("%d. %s\n",
    i+1, color) }], from index [i] with [text] accumulated so far. *)
Fixpoint range_render (text : string) (i : nat) (l : list string) : string :=
  match l with
  | [] => text
  | color :: rest =>
      range_render (text +:+ (fmt_d (i + 1) +:+ ". " +:+ color +:+ nl)) (S i) rest
  end.

Definition GetColors_body : State (list string) (list string * string) :=
  fun l =>
    let colors := copy (make (length l)) l in
    let text :=
      if decide (length colors = 0) then "You have no favorite colors yet."
      else range_render ("Your favorite colors (" +:+ fmt_d (length colors)
                           +:+ " total):" +:+ nl) 0 colors in
    ((colors, text), l).

Definition GetColors : State ColorStorage (list string * string) :=
  locked RLock RUnlock GetColors_body.

Definition RemoveColor_body (color : string) : State (list string) (string * bool) :=
  fun l =>
    match range_index color 0 l with
    | Some i =>
        (("Successfully removed '" +:+ color +:+ "' from your favorite colors!", true),
         take i l ++ drop (i + 1) l)
    | None =>
        (("Color '" +:+ color +:+ "' was not found in your favorites", false), l)
    end.

Definition RemoveColor (color : string) : State ColorStorage (string * bool) :=
  locked Lock Unlock (RemoveColor_body color).

Definition ClearColors_body : State (list string) (string * nat) :=
  fun l =>
    let clearedCount := length l in
    (("Successfully cleared " +:+ fmt_d clearedCount +:+ " favorite colors!",
      clearedCount), []).

Definition ClearColors : State ColorStorage (string * nat) :=
  locked Lock Unlock ClearColors_body.

Definition Count_body : State (list string) nat :=
  fun l => (length l, l).

Definition Count : State ColorStorage nat :=
  locked RLock RUnlock Count_body.

(** The calls a client of the store can make, and a run of a sequence of
    them (results dropped, the state threaded). *)
Inductive Call : Type :=
| CallAdd (color : string)
| CallGet
| CallRemove (color : string)
| CallClear
| CallCount.

Definition call (c : Call) (cs : ColorStorage) : ColorStorage :=
  match c with
  | CallAdd color => (AddColor color cs).2
  | CallGet => (GetColors cs).2
  | CallRemove color => (RemoveColor color cs).2
  | CallClear => (ClearColors cs).2
  | CallCount => (Count cs).2
  end.

Definition run (cs : ColorStorage) (calls : list Call) : ColorStorage :=
  foldl (fun cs c => call c cs) cs calls.

End storage.

(** * The slice [cs.colors] in memory

    A Go slice is a view of a backing array: [append] within the capacity
    and [copy] write into the array that other slices may share.  The
    methods of the store are given here a second time, over the backing
    arrays, to tell a slice that is a copy from one that is shared.  Below,
    they are shown to compute on the elements of [cs.colors] what the
    methods of [storage] compute on lists. *)

Module slices.
Import storage.

(** A slice value: the address of its backing array, where it starts in
    the array, its length and its capacity. *)
Record Slice : Type := mkSlice {
  array : nat;
  offset : nat;
  len : nat;
  cap : nat
}.

(** The backing arrays allocated so far; the address of an array is its
    position. *)
Abbreviation Heap := (list (list string)).

(** The elements [s[0]], ..., [s[len(s)-1]]. *)
Definition elements (h : Heap) (s : Slice) : list string :=
  take (len s) (drop (offset s) (default [] (h !! array s))).

(** [s[i:j]] *)
Definition reslice (s : Slice) (i j : nat) : Slice :=
  {| array := array s; offset := offset s + i; len := j - i; cap := cap s - i |}.

(** The assignments [s[i] = x0], [s[i+1] = x1], ... of the elements of
    [xs], all read before the first is written (the runtime's [memmove]). *)
Definition store (s : Slice) (i : nat) (xs : list string) (h : Heap) : Heap :=
  alter (λ a, take (offset s + i) a ++ xs ++ drop (offset s + i + length xs) a)
        (array s) h.

(** [make([]string, n)] *)
Definition make (n : nat) : State Heap Slice :=
  fun h =>
    ({| array := length h; offset := 0; len := n; cap := n |},
     h ++ [replicate n ""]).

(** [copy(dst, src)] *)
Definition copy (dst src : Slice) : State Heap nat :=
  fun h =>
    let n := Nat.min (len dst) (len src) in
    (n, store dst 0 (take n (elements h src)) h).

Section append.

(** When the capacity does not suffice, [append] allocates an array that
    fits the elements; how much room the runtime leaves beyond them is its
    own choice, here a function of the old capacity and of the length
    needed. *)
Variable spare : nat → nat → nat.

(** [append(s, xs...)] *)
Definition append (s : Slice) (xs : list string) : State Heap Slice :=
  fun h =>
    let n := len s + length xs in
    if decide (n ≤ cap s) then
      ({| array := array s; offset := offset s; len := n; cap := cap s |},
       store s (len s) xs h)
    else
      let room := spare (cap s) n in
      ({| array := length h; offset := 0; len := n; cap := n + room |},
       h ++ [elements h s ++ xs ++ replicate room ""]).

(** The store: the heap and the field [cs.colors]. *)
Record ColorStorage : Type := mkColorStorage {
  heap : Heap;
  colors : Slice
}.

Definition NewColorStorage : ColorStorage :=
  let '(s, h) := make 0 [] in {| heap := h; colors := s |}.

Definition AddColor (color : string) : State ColorStorage (string * bool) :=
  fun cs =>
    if range_find color (elements (heap cs) (colors cs)) then
      (("Color '" +:+ color +:+ "' is already in your favorites", false), cs)
    else
      let '(s, h) := append (colors cs) [color] (heap cs) in
      (("Successfully added '" +:+ color +:+ "' to your favorite colors!", true),
       {| heap := h; colors := s |}).

Definition GetColors : State ColorStorage (Slice * string) :=
  fun cs =>
    let '(colors', h1) := make (len (colors cs)) (heap cs) in
    let '(_, h2) := copy colors' (colors cs) h1 in
    let text :=
      if decide (len colors' = 0) then "You have no favorite colors yet."
      else range_render ("Your favorite colors (" +:+ fmt_d (len colors')
                           +:+ " total):" +:+ nl) 0 (elements h2 colors') in
    ((colors', text), {| heap := h2; colors := colors cs |}).

Definition RemoveColor (color : string) : State ColorStorage (string * bool) :=
  fun cs =>
    match range_index color 0 (elements (heap cs) (colors cs)) with
    | Some i =>
        let tail := elements (heap cs) (reslice (colors cs) (i + 1) (len (colors cs))) in
        let '(s, h) := append (reslice (colors cs) 0 i) tail (heap cs) in
        (("Successfully removed '" +:+ color +:+ "' from your favorite colors!", true),
         {| heap := h; colors := s |})
    | None =>
        (("Color '" +:+ color +:+ "' was not found in your favorites", false), cs)
    end.

(** [cs.colors = []string{}]: a slice of length and capacity 0. *)
Definition ClearColors : State ColorStorage (string * nat) :=
  fun cs =>
    let clearedCount := len (colors cs) in
    let '(s, h) := make 0 (heap cs) in
    (("Successfully cleared " +:+ fmt_d clearedCount +:+ " favorite colors!",
      clearedCount), {| heap := h; colors := s |}).

Definition Count : State ColorStorage nat :=
  fun cs => (len (colors cs), cs).

Definition call (c : Call) (cs : ColorStorage) : ColorStorage :=
  match c with
  | CallAdd color => (AddColor color cs).2
  | CallGet => (GetColors cs).2
  | CallRemove color => (RemoveColor color cs).2
  | CallClear => (ClearColors cs).2
  | CallCount => (Count cs).2
  end.

Definition run (cs : ColorStorage) (calls : list Call) : ColorStorage :=
  foldl (fun cs c => call c cs) cs calls.

(** [cs.colors] lies within an allocated array. *)
Definition well_formed (cs : ColorStorage) : Prop :=
  ∃ a, heap cs !! array (colors cs) = Some a ∧
       len (colors cs) ≤ cap (colors cs) ∧
       offset (colors cs) + cap (colors cs) ≤ length a.

(** From [cs] to [cs'], the arrays other than the one of [cs.colors] are
    as they were, and [cs'.colors] is in the array of [cs.colors] or in a
    new one. *)
Definition preserves (cs cs' : ColorStorage) : Prop :=
  length (heap cs) ≤ length (heap cs') ∧
  (∀ a, a ≠ array (colors cs) → a < length (heap cs) →
        heap cs' !! a = heap cs !! a) ∧
  (array (colors cs') = array (colors cs) ∨
   length (heap cs) ≤ array (colors cs')).

(** [s] views an allocated array that is not the one of [cs.colors]. *)
Definition apart (s : Slice) (cs : ColorStorage) : Prop :=
  array s < length (heap cs) ∧ array s ≠ array (colors cs).

End append.

(** The growth of the Go runtime for small slices: the capacity doubles. *)
Definition double_spare (oldcap needed : nat) : nat := 2 * oldcap - needed.

End slices.

(** * internal/mcp: protocol structures and the dispatcher (server.go) *)

Module mcp.
Import storage.

(** ** Protocol structures

    The struct declarations of package [mcp] are those at the head of
    [main.go].  Several structs share field names; each struct has a module
    of its own, with its record named [t]. *)

Module ServerInfo.
Record t : Type := mk { Name : string; Version : string }.
End ServerInfo.

Module ServerCapabilities.
(** [Tools struct{}] *)
Record t : Type := mk { Tools : unit }.
End ServerCapabilities.

Module ToolSchema.
(** [A] is the type of the values of [map[string]interface{}]. *)
Record t (A : Type) : Type := mk {
  Type_ : string;
  Properties : gmap string A;
  Required : list string
}.
Arguments mk {A}.
Arguments Type_ {A}.
Arguments Properties {A}.
Arguments Required {A}.
End ToolSchema.

Module Tool.
Record t (A : Type) : Type := mk {
  Name : string;
  Description : string;
  InputSchema : ToolSchema.t A
}.
Arguments mk {A}.
Arguments Name {A}.
Arguments Description {A}.
Arguments InputSchema {A}.
End Tool.

(** [interface{}]: a value together with its dynamic type.  The dynamic
    types are those [encoding/json] decodes a request into ([nil], [bool],
    [float64], [string], [[]interface{}], [map[string]interface{}]), [int]
    (identifiers given by in-process callers), and those the handlers put in
    a result.  A [nil] map reads like the empty map. *)
#[warnings="-register-all"]
Inductive any : Type :=
| Nil
| Bool (b : bool)
| Int (n : Z)
| Float64 (f : spec_float)
| Str (s : string)
| Slice (l : list any)
| Map (m : gmap string any)
| MapSlice (l : list (gmap string any))
| OfServerInfo (i : ServerInfo.t)
| OfServerCapabilities (c : ServerCapabilities.t)
| ToolSlice (l : list (Tool.t any)).

Module JSONRPCRequest.
Record t : Type := mk {
  JSONRPC : string;
  ID : any;
  Method : string;
  Params : any
}.
End JSONRPCRequest.

Module JSONRPCError.
Record t : Type := mk {
  Code : Z;
  Message : string;
  Data : any
}.
End JSONRPCError.

Module JSONRPCResponse.
(** [Error *JSONRPCError]: [None] is the nil pointer. *)
Record t : Type := mk {
  JSONRPC : string;
  ID : any;
  Result : any;
  Error : option JSONRPCError.t
}.
End JSONRPCResponse.

(** [v.(map[string]interface{})] with the comma-ok form *)
Definition assert_map (v : any) : option (gmap string any) :=
  match v with
  | Map m => Some m
  | _ => None
  end.

(** [v.(string)] with the comma-ok form *)
Definition assert_string (v : any) : option string :=
  match v with
  | Str s => Some s
  | _ => None
  end.

(** [m[key]] on a [map[string]interface{}]: [nil] for a missing key. *)
Definition index (m : gmap string any) (key : string) : any :=
  default Nil (m !! key).

Record Server : Type := mkServer {
  tools : gmap string (Tool.t any);
  storage : ColorStorage
}.

(** A call of a method of [s.storage] from a method of [s]. *)
Definition on_storage {A} (m : State ColorStorage A) : State Server A :=
  fun s =>
    let '(a, cs) := m (storage s) in
    (a, {| tools := tools s; storage := cs |}).

Definition RegisterTool (tool : Tool.t any) : State Server unit :=
  fun s =>
    (tt, {| tools := <[Tool.Name tool := tool]> (tools s); storage := storage s |}).

Definition color_schema (description : string) : ToolSchema.t any :=
  {| ToolSchema.Type_ := "object";
     ToolSchema.Properties :=
       {[ "color" := Map {[ "type" := Str "string";
                            "description" := Str description ]} ]};
     ToolSchema.Required := ["color"] |}.

(** A [ToolSchema] literal that sets [Type] only: nil map and nil slice. *)
Definition object_schema : ToolSchema.t any :=
  {| ToolSchema.Type_ := "object";
     ToolSchema.Properties := ∅;
     ToolSchema.Required := [] |}.

Definition registerTools : State Server unit :=
  let* _ := RegisterTool
    {| Tool.Name := "add_color";
       Tool.Description := "Add a color to your favorites list";
       Tool.InputSchema := color_schema "The color to add to favorites" |} in
  let* _ := RegisterTool
    {| Tool.Name := "get_colors";
       Tool.Description := "Get all favorite colors";
       Tool.InputSchema := object_schema |} in
  let* _ := RegisterTool
    {| Tool.Name := "remove_color";
       Tool.Description := "Remove a color from your favorites list";
       Tool.InputSchema := color_schema "The color to remove from favorites" |} in
  RegisterTool
    {| Tool.Name := "clear_colors";
       Tool.Description := "Clear all favorite colors";
       Tool.InputSchema := object_schema |}.

Definition NewServer : Server :=
  (registerTools {| tools := ∅; storage := NewColorStorage |}).2.

(** The response literal with [Error] set; [Result] and [Data] keep their
    zero value. *)
Definition error_response (req : JSONRPCRequest.t) (code : Z) (message : string)
    : JSONRPCResponse.t :=
  {| JSONRPCResponse.JSONRPC := "2.0";
     JSONRPCResponse.ID := JSONRPCRequest.ID req;
     JSONRPCResponse.Result := Nil;
     JSONRPCResponse.Error :=
       Some {| JSONRPCError.Code := code;
               JSONRPCError.Message := message;
               JSONRPCError.Data := Nil |} |}.

(** The response literal with [Result] set to a [map[string]interface{}];
    [Error] keeps the nil pointer. *)
Definition result_response (req : JSONRPCRequest.t) (result : gmap string any)
    : JSONRPCResponse.t :=
  {| JSONRPCResponse.JSONRPC := "2.0";
     JSONRPCResponse.ID := JSONRPCRequest.ID req;
     JSONRPCResponse.Result := Map result;
     JSONRPCResponse.Error := None |}.

(** [map[string]interface{}{"content": []map[string]interface{}{{"type":
    "text", "text": text}}}] *)
Definition text_content (text : string) : gmap string any :=
  {[ "content" := MapSlice [ {[ "type" := Str "text"; "text" := Str text ]} ] ]}.

Section dispatcher.

(** The order in which [for _, tool := range s.tools] visits a map is not
    specified by Go and changes from one loop to the next: it is an input of
    the dispatcher. *)
Variable map_range : gmap string (Tool.t any) -> list (string * Tool.t any).

Definition handleInitialize (req : JSONRPCRequest.t) : State Server JSONRPCResponse.t :=
  ret (result_response req
    {[ "protocolVersion" := Str "2024-11-05";
       "serverInfo" := OfServerInfo
         {| ServerInfo.Name := "favorite-colors-mcp"; ServerInfo.Version := "1.0.0" |};
       "capabilities" := OfServerCapabilities {| ServerCapabilities.Tools := tt |} ]}).

Definition handleToolsList (req : JSONRPCRequest.t) : State Server JSONRPCResponse.t :=
  fun s =>
    let tools := foldl (fun tools kv => tools ++ [kv.2]) [] (map_range (tools s)) in
    (result_response req {[ "tools" := ToolSlice tools ]}, s).

Definition handleAddColor (req : JSONRPCRequest.t) (args : gmap string any)
    : State Server JSONRPCResponse.t :=
  match assert_string (index args "color") with
  | Some color =>
      if decide (color = "") then
        ret (error_response req (-32602) "Color parameter required")
      else
        let* (message, added) := on_storage (AddColor color) in
        ret (result_response req (text_content message))
  | None => ret (error_response req (-32602) "Color parameter required")
  end.

Definition handleGetColors (req : JSONRPCRequest.t) (_ : gmap string any)
    : State Server JSONRPCResponse.t :=
  let* (_, text) := on_storage GetColors in
  ret (result_response req (text_content text)).

Definition handleRemoveColor (req : JSONRPCRequest.t) (args : gmap string any)
    : State Server JSONRPCResponse.t :=
  match assert_string (index args "color") with
  | Some color =>
      if decide (color = "") then
        ret (error_response req (-32602) "Color parameter required")
      else
        let* (message, removed) := on_storage (RemoveColor color) in
        ret (result_response req (text_content message))
  | None => ret (error_response req (-32602) "Color parameter required")
  end.

Definition handleClearColors (req : JSONRPCRequest.t) (_ : gmap string any)
    : State Server JSONRPCResponse.t :=
  let* (message, count) := on_storage ClearColors in
  ret (result_response req (text_content message)).

Definition handleToolsCall (req : JSONRPCRequest.t) : State Server JSONRPCResponse.t :=
  match assert_map (JSONRPCRequest.Params req) with
  | None => ret (error_response req (-32602) "Invalid params")
  | Some params =>
      match assert_string (index params "name") with
      | None => ret (error_response req (-32602) "Tool name required")
      | Some toolName =>
          let arguments := default ∅ (assert_map (index params "arguments")) in
          if decide (toolName = "add_color") then handleAddColor req arguments
          else if decide (toolName = "get_colors") then handleGetColors req arguments
          else if decide (toolName = "remove_color") then handleRemoveColor req arguments
          else if decide (toolName = "clear_colors") then handleClearColors req arguments
          else ret (error_response req (-32601) "Tool not found")
      end
  end.

Definition HandleRequest (req : JSONRPCRequest.t) : State Server JSONRPCResponse.t :=
  let method := JSONRPCRequest.Method req in
  if decide (method = "initialize") then handleInitialize req
  else if decide (method = "tools/list") then handleToolsList req
  else if decide (method = "tools/call") then handleToolsCall req
  else ret (error_response req (-32601) "Method not found").

End dispatcher.

(** One visiting order, for running the dispatcher on a request. *)
Definition fixed_range (m : gmap string (Tool.t any)) : list (string * Tool.t any) :=
  map_to_list m.

End mcp.

(** * Goroutines calling the store at the same time

    Each goroutine makes one call of [AddColor], [RemoveColor] or
    [ClearColors].  A call is cut at the statements that touch shared
    memory: taking the lock, the loop over [cs.colors] (or
    [len(cs.colors)]), the assignment to [cs.colors] or the [return] that
    skips it, and the deferred [Unlock].  A schedule picks which goroutine
    runs its next statement; [cs.mutex.Lock()] cannot be picked while
    another goroutine holds the lock.  Nothing else keeps the statements of
    different goroutines apart. *)

Module goroutines.
Import storage.

Inductive Method : Type :=
| MAdd (color : string)
| MRemove (color : string)
| MClear.

(** What a call returns: [(string, bool)] or [(string, int)]. *)
Definition Returned : Type := (string * bool) + (string * nat).

(** The call made alone, as one method of the store. *)
Definition method_body (m : Method) : State (list string) Returned :=
  fun l =>
    match m with
    | MAdd color => let '(r, l') := AddColor_body color l in (inl r, l')
    | MRemove color => let '(r, l') := RemoveColor_body color l in (inl r, l')
    | MClear => let '(r, l') := ClearColors_body l in (inr r, l')
    end.

(** Calls made one after the other, with what each returned. *)
Fixpoint run_seq (ms : list Method) (l : list string) : list Returned * list string :=
  match ms with
  | [] => ([], l)
  | m :: rest =>
      let '(r, l') := method_body m l in
      let '(rs, l'') := run_seq rest l' in
      (r :: rs, l'')
  end.

(** Where a goroutine stands in its call. *)
Inductive Goroutine : Type :=
| Ready (m : Method)
    (* before [cs.mutex.Lock()] *)
| Locked (m : Method)
    (* [Lock] returned; [cs.colors] not read yet *)
| AddScanned (color : string) (found : bool)
    (* the loop of [AddColor] is over *)
| RemoveScanned (color : string) (i : option nat)
    (* the loop of [RemoveColor] is over, or at its [return] *)
| ClearCounted (clearedCount : nat)
    (* [clearedCount := len(cs.colors)] *)
| Returning (r : Returned)
    (* the result is set, the deferred [Unlock] is to run *)
| Done (r : Returned).

Record Config : Type := mkConfig {
  colors : list string;
  (* the goroutine inside [Lock] ... [Unlock], if any *)
  holder : option nat;
  goroutines : list Goroutine
}.

Definition init (l : list string) (ms : list Method) : Config :=
  {| colors := l; holder := None; goroutines := Ready <$> ms |}.

(** The next access to shared memory of goroutine [t]; [None] when [t] is
    blocked in [Lock] or has returned. *)
Definition step (t : nat) (c : Config) : option Config :=
  match goroutines c !! t with
  | Some (Ready m) =>
      match holder c with
      | None =>
          Some {| colors := colors c; holder := Some t;
                  goroutines := <[t := Locked m]> (goroutines c) |}
      | Some _ => None
      end
  | Some (Locked m) =>
      let g :=
        match m with
        | MAdd color => AddScanned color (range_find color (colors c))
        | MRemove color => RemoveScanned color (range_index color 0 (colors c))
        | MClear => ClearCounted (length (colors c))
        end in
      Some {| colors := colors c; holder := holder c;
              goroutines := <[t := g]> (goroutines c) |}
  | Some (AddScanned color found) =>
      if found then
        Some {| colors := colors c; holder := holder c;
                goroutines :=
                  <[t := Returning
                     (inl ("Color '" +:+ color +:+ "' is already in your favorites",
                           false))]> (goroutines c) |}
      else
        Some {| colors := colors c ++ [color]; holder := holder c;
                goroutines :=
                  <[t := Returning
                     (inl ("Successfully added '" +:+ color
                             +:+ "' to your favorite colors!", true))]>
                    (goroutines c) |}
  | Some (RemoveScanned color (Some i)) =>
      Some {| colors := take i (colors c) ++ drop (i + 1) (colors c);
              holder := holder c;
              goroutines :=
                <[t := Returning
                   (inl ("Successfully removed '" +:+ color
                           +:+ "' from your favorite colors!", true))]>
                  (goroutines c) |}
  | Some (RemoveScanned color None) =>
      Some {| colors := colors c; holder := holder c;
              goroutines :=
                <[t := Returning
                   (inl ("Color '" +:+ color +:+ "' was not found in your favorites",
                         false))]> (goroutines c) |}
  | Some (ClearCounted clearedCount) =>
      Some {| colors := []; holder := holder c;
              goroutines :=
                <[t := Returning
                   (inr ("Successfully cleared " +:+ fmt_d clearedCount
                           +:+ " favorite colors!", clearedCount))]>
                  (goroutines c) |}
  | Some (Returning r) =>
      Some {| colors := colors c; holder := None;
              goroutines := <[t := Done r]> (goroutines c) |}
  | Some (Done _) | None => None
  end.

(** A schedule: the goroutines in the order in which they make their
    accesses.  [None] when it picks a goroutine that cannot move. *)
Fixpoint exec (schedule : list nat) (c : Config) : option Config :=
  match schedule with
  | [] => Some c
  | t :: rest =>
      match step t c with
      | Some c' => exec rest c'
      | None => None
      end
  end.

(** Goroutine [t] has returned [r]. *)
Definition returned (c : Config) (t : nat) (r : Returned) : Prop :=
  goroutines c !! t = Some (Done r).

(** Every goroutine has returned. *)
Definition all_done (c : Config) : Prop :=
  Forall (fun g => match g with Done _ => True | _ => False end) (goroutines c).

(** The method goroutine [t] was started with. *)
Definition method_of (ms : list Method) (t : nat) : Method :=
  default MClear (ms !! t).

(** What goroutine [t] has set as its result, once it is past its
    assignment to [cs.colors] (or the [return] that skips it). *)
Definition committed (g : Goroutine) : option Returned :=
  match g with
  | Returning r | Done r => Some r
  | _ => None
  end.

Definition result_of (c : Config) (t : nat) : option Returned :=
  goroutines c !! t ≫= committed.

(** The statements goroutine [g] has still to run. *)
Definition remaining (g : Goroutine) : nat :=
  match g with
  | Ready _ => 4
  | Locked _ => 3
  | AddScanned _ _ | RemoveScanned _ _ | ClearCounted _ => 2
  | Returning _ => 1
  | Done _ => 0
  end.

Definition remaining_all (c : Config) : nat :=
  sum_list (remaining <$> goroutines c).

(** [g] is between [Lock] and [Unlock]. *)
Definition in_critical_section (g : Goroutine) : Prop :=
  match g with
  | Ready _ | Done _ => False
  | _ => True
  end.

(** What holds of goroutine [t] in state [g] of a run of the calls [ms]:
    it runs its own call, it is inside the critical section only as the
    holder of the lock, and what it has read of [cs.colors] is still what
    [cs.colors] holds. *)
Definition goroutine_ok (ms : list Method) (c : Config) (t : nat) (g : Goroutine)
    : Prop :=
  match g with
  | Ready m => ms !! t = Some m
  | Locked m => ms !! t = Some m ∧ holder c = Some t
  | AddScanned color found =>
      ms !! t = Some (MAdd color) ∧ holder c = Some t ∧
      found = range_find color (colors c)
  | RemoveScanned color i =>
      ms !! t = Some (MRemove color) ∧ holder c = Some t ∧
      i = range_index color 0 (colors c)
  | ClearCounted clearedCount =>
      ms !! t = Some MClear ∧ holder c = Some t ∧
      clearedCount = length (colors c)
  | Returning _ => holder c = Some t
  | Done _ => True
  end.

(** The calls that have set their result are, in some order, a sequential
    run from [l0] to the present colors, with the same results. *)
Definition linearized (ms : list Method) (l0 : list string)
    (l : list string) (result : nat → option Returned) : Prop :=
  ∃ order rs,
    NoDup order ∧
    (∀ t r, result t = Some r → t ∈ order) ∧
    run_seq (method_of ms <$> order) l0 = (rs, l) ∧
    Forall2 (λ t r, result t = Some r) order rs.

(** The invariant of the runs of [ms] from the colors [l0]. *)
Definition invariant (ms : list Method) (l0 : list string) (c : Config) : Prop :=
  length (goroutines c) = length ms ∧
  (∀ t g, goroutines c !! t = Some g → goroutine_ok ms c t g) ∧
  (∀ t, holder c = Some t →
        ∃ g, goroutines c !! t = Some g ∧ in_critical_section g) ∧
  linearized ms l0 (colors c) (result_of c).

End goroutines.

(** * main.go

    The server as one package: the colors are the package variable
    [favoriteColors], guarded by [colorsMutex], and the handlers of
    [MCPServer] work on it themselves.  The protocol structures are those of
    [mcp]. *)

Module main.
Import storage mcp.

(** The package variables. *)
Record Package : Type := mkPackage {
  favoriteColors : list string;
  colorsMutex : list MutexCall
}.

Record MCPServer : Type := mkMCPServer {
  tools : gmap string (Tool.t any)
}.

(** [colorsMutex.Lock(); defer colorsMutex.Unlock()] around the rest of a
    handler. *)
Definition locked {A} (acquire release : MutexCall)
    (body : State (list string) A) : State Package A :=
  fun p =>
    let '(a, l) := body (favoriteColors p) in
    (a, {| favoriteColors := l; colorsMutex := colorsMutex p ++ [acquire; release] |}).

Definition RegisterTool (tool : Tool.t any) : State MCPServer unit :=
  fun s => (tt, {| tools := <[Tool.Name tool := tool]> (tools s) |}).

Definition registerTools : State MCPServer unit :=
  let* _ := RegisterTool
    {| Tool.Name := "add_color";
       Tool.Description := "Add a color to your favorites list";
       Tool.InputSchema := color_schema "The color to add to favorites" |} in
  let* _ := RegisterTool
    {| Tool.Name := "get_colors";
       Tool.Description := "Get all favorite colors";
       Tool.InputSchema := object_schema |} in
  let* _ := RegisterTool
    {| Tool.Name := "remove_color";
       Tool.Description := "Remove a color from your favorites list";
       Tool.InputSchema := color_schema "The color to remove from favorites" |} in
  RegisterTool
    {| Tool.Name := "clear_colors";
       Tool.Description := "Clear all favorite colors";
       Tool.InputSchema := object_schema |}.


Section dispatcher.

Variable map_range : gmap string (Tool.t any) -> list (string * Tool.t any).

Definition handleInitialize (req : JSONRPCRequest.t) : State Package JSONRPCResponse.t :=
  ret (result_response req
    {[ "protocolVersion" := Str "2024-11-05";
       "serverInfo" := OfServerInfo
         {| ServerInfo.Name := "favorite-colors-mcp"; ServerInfo.Version := "1.0.0" |};
       "capabilities" := OfServerCapabilities {| ServerCapabilities.Tools := tt |} ]}).

Definition handleToolsList (s : MCPServer) (req : JSONRPCRequest.t)
    : State Package JSONRPCResponse.t :=
  let tools := foldl (fun tools kv => tools ++ [kv.2]) [] (map_range (tools s)) in
  ret (result_response req {[ "tools" := ToolSlice tools ]}).

Definition handleAddColor (req : JSONRPCRequest.t) (args : gmap string any)
    : State Package JSONRPCResponse.t :=
  match assert_string (index args "color") with
  | Some color =>
      if decide (color = "") then
        ret (error_response req (-32602) "Color parameter required")
      else
        locked Lock Unlock (fun l =>
          if range_find color l then
            (result_response req (text_content
               ("Color '" +:+ color +:+ "' is already in your favorites")), l)
          else
            (result_response req (text_content
               ("Successfully added '" +:+ color +:+ "' to your favorite colors!")),
             l ++ [color]))
  | None => ret (error_response req (-32602) "Color parameter required")
  end.

Definition handleGetColors (req : JSONRPCRequest.t) (_ : gmap string any)
    : State Package JSONRPCResponse.t :=
  locked RLock RUnlock (fun l =>
    let colors := copy (make (length l)) l in
    let text :=
      if decide (length colors = 0) then "You have no favorite colors yet."
      else range_render ("Your favorite colors (" +:+ fmt_d (length colors)
                           +:+ " total):" +:+ nl) 0 colors in
    (result_response req (text_content text), l)).

Definition handleRemoveColor (req : JSONRPCRequest.t) (args : gmap string any)
    : State Package JSONRPCResponse.t :=
  match assert_string (index args "color") with
  | Some color =>
      if decide (color = "") then
        ret (error_response req (-32602) "Color parameter required")
      else
        locked Lock Unlock (fun l =>
          match range_index color 0 l with
          | Some i =>
              (result_response req (text_content
                 ("Successfully removed '" +:+ color
                    +:+ "' from your favorite colors!")),
               take i l ++ drop (i + 1) l)
          | None =>
              (result_response req (text_content
                 ("Color '" +:+ color +:+ "' was not found in your favorites")), l)
          end)
  | None => ret (error_response req (-32602) "Color parameter required")
  end.

Definition handleClearColors (req : JSONRPCRequest.t) (_ : gmap string any)
    : State Package JSONRPCResponse.t :=
  locked Lock Unlock (fun l =>
    let clearedCount := length l in
    (result_response req (text_content
       ("Successfully cleared " +:+ fmt_d clearedCount +:+ " favorite colors!")),
     [])).

Definition handleToolsCall (req : JSONRPCRequest.t) : State Package JSONRPCResponse.t :=
  match assert_map (JSONRPCRequest.Params req) with
  | None => ret (error_response req (-32602) "Invalid params")
  | Some params =>
      match assert_string (index params "name") with
      | None => ret (error_response req (-32602) "Tool name required")
      | Some toolName =>
          let arguments := default ∅ (assert_map (index params "arguments")) in
          if decide (toolName = "add_color") then handleAddColor req arguments
          else if decide (toolName = "get_colors") then handleGetColors req arguments
          else if decide (toolName = "remove_color") then handleRemoveColor req arguments
          else if decide (toolName = "clear_colors") then handleClearColors req arguments
          else ret (error_response req (-32601) "Tool not found")
      end
  end.

Definition HandleRequest (s : MCPServer) (req : JSONRPCRequest.t)
    : State Package JSONRPCResponse.t :=
  let method := JSONRPCRequest.Method req in
  if decide (method = "initialize") then handleInitialize req
  else if decide (method = "tools/list") then handleToolsList s req
  else if decide (method = "tools/call") then handleToolsCall req
  else ret (error_response req (-32601) "Method not found").

End dispatcher.


(** ** The stdio loop *)

(** The package variables and the output of the process: the lines printed
    on the standard output and the messages given to package [log]. *)
Record Process : Type := mkProcess {
  package : Package;
  stdout : list string;
  log : list string
}.

Definition log_Printf (message : string) : State Process unit :=
  fun p => (tt, {| package := package p; stdout := stdout p;
                   log := log p ++ [message] |}).

Definition fmt_Println (line : string) : State Process unit :=
  fun p => (tt, {| package := package p; stdout := stdout p ++ [line];
                   log := log p |}).

Section runStdio.

Variable map_range : gmap string (Tool.t any) -> list (string * Tool.t any).

(** [json.Unmarshal] of a line into a zero [JSONRPCRequest] and
    [json.Marshal] of a response: the value or the text of the error. *)
Variable Unmarshal : string -> JSONRPCRequest.t + string.
Variable Marshal : JSONRPCResponse.t -> string + string.





End runStdio.

End main.

(** * internal/transport

    [stdio.go] and the HTTP transport.  A transport owns a server; what it
    does besides is seen in the lines it prints on the standard output, the
    messages it gives to package [log], and the calls it makes on the
    [http.ResponseWriter]. *)

Module transport.
Import storage mcp.

(** The server of the transport ([st.server], [ht.server]) and the output
    of the process.  A Go [error] is known by its text. *)
Record Process : Type := mkProcess {
  server : Server;
  stdout : list string;
  log : list string
}.

Definition log_Printf (message : string) : State Process unit :=
  fun p => (tt, {| server := server p; stdout := stdout p;
                   log := log p ++ [message] |}).

Definition fmt_Println (line : string) : State Process unit :=
  fun p => (tt, {| server := server p; stdout := stdout p ++ [line];
                   log := log p |}).

(** The calls made on a [http.ResponseWriter], in the order they are made:
    [w.Header().Set(key, value)], [w.WriteHeader(statusCode)], [w.Write(data)]
    and [http.Error(w, error, code)]. *)
Inductive WriterCall : Type :=
| HeaderSet (key value : string)
| WriteHeader (statusCode : nat)
| Write (data : string)
| Error (error : string) (code : nat).

Definition ResponseWriter : Type := list WriterCall.

(** What a handler reads of [r *http.Request]. *)
Record Request : Type := mkRequest {
  Method : string;
  Body : string
}.

Definition StatusOK : nat := 200.
Definition StatusMethodNotAllowed : nat := 405.
Definition StatusInternalServerError : nat := 500.

(** A [http.HandlerFunc]: from the request and the calls made on [w] so
    far to the calls made on [w] when it returns. *)
Definition HandlerFunc : Type := Request -> ResponseWriter -> State Process ResponseWriter.

Section transport.

Variable map_range : gmap string (Tool.t any) -> list (string * Tool.t any).

(** [encoding/json]: [json.Unmarshal] of a line and [Decode] of a body into
    a zero [JSONRPCRequest], [json.Marshal] of a response; each gives the
    value or the text of the error. *)
Variable Unmarshal : string -> JSONRPCRequest.t + string.
Variable Decode : string -> JSONRPCRequest.t + string.
Variable Marshal : JSONRPCResponse.t -> string + string.

(** The text of the error of [w.Write(data)], if it fails, after the calls
    made on [w] so far. *)
Variable Write_err : ResponseWriter -> string -> option string.

(** The verb [%v] applied to [req.ID]. *)
Variable fmt_v : any -> string.

(** [st.server.HandleRequest(req)] *)
Definition on_server (req : JSONRPCRequest.t) : State Process JSONRPCResponse.t :=
  fun p =>
    let '(response, s) := HandleRequest map_range req (server p) in
    (response, {| server := s; stdout := stdout p; log := log p |}).

(** ** stdio.go *)

(** The body of the loop [for scanner.Scan()], for the line
    [scanner.Text()]. *)
Definition Run_line (line : string) : State Process unit :=
  if decide (line = "") then ret tt
  else
    match Unmarshal line with
    | inr err => log_Printf ("Error parsing request: " +:+ err)
    | inl req =>
        let* response := on_server req in
        match Marshal response with
        | inr err => log_Printf ("Error marshaling response: " +:+ err)
        | inl responseJSON => fmt_Println responseJSON
        end
    end.

Fixpoint Run_lines (lines : list string) : State Process unit :=
  match lines with
  | [] => ret tt
  | line :: lines => let* _ := Run_line line in Run_lines lines
  end.

(** [Run], for the lines the scanner yields until [Scan] returns false and
    the error [scanner.Err()] it then reports, if any. *)
Definition Run (lines : list string) (scanner_Err : option string)
    : State Process (option string) :=
  let* _ := log_Printf "Favorite Colors MCP Server starting (stdio transport)..." in
  let* _ := log_Printf
    "Available tools: add_color, get_colors, remove_color, clear_colors" in
  let* _ := Run_lines lines in
  match scanner_Err with
  | Some err => ret (Some ("error reading input: " +:+ err))
  | None => ret None
  end.


(** What a run of the loop amounts to: the requests of the lines that are
    not empty and that parse, the responses of the server to requests
    handled one after the other, and the lines printed for the responses
    that can be marshalled. *)
Definition requests (lines : list string) : list JSONRPCRequest.t :=
  omap (fun line =>
          if decide (line = "") then None
          else match Unmarshal line with
               | inl req => Some req
               | inr _ => None
               end) lines.

Fixpoint serve (reqs : list JSONRPCRequest.t) : State Server (list JSONRPCResponse.t) :=
  match reqs with
  | [] => ret []
  | req :: reqs =>
      let* response := HandleRequest map_range req in
      let* responses := serve reqs in
      ret (response :: responses)
  end.

Definition printed (responses : list JSONRPCResponse.t) : list string :=
  omap (fun response =>
          match Marshal response with
          | inl responseJSON => Some responseJSON
          | inr _ => None
          end) responses.

(** ** The HTTP transport *)

(** [json.NewEncoder(w).Encode(v)]: the value is marshalled first; its JSON
    and a line feed go to [w] in one [Write]. *)
Definition Encode (v : JSONRPCResponse.t) (w : ResponseWriter)
    : option string * ResponseWriter :=
  match Marshal v with
  | inr err => (Some err, w)
  | inl json => (Write_err w (json +:+ nl), w ++ [Write (json +:+ nl)])
  end.

Definition handleMCP : HandlerFunc :=
  fun r w =>
    let w := w ++ [HeaderSet "Content-Type" "application/json";
                   HeaderSet "Cache-Control" "no-cache";
                   HeaderSet "Access-Control-Allow-Origin" "*";
                   HeaderSet "Access-Control-Allow-Methods" "GET, POST, OPTIONS";
                   HeaderSet "Access-Control-Allow-Headers"
                     "Content-Type, Authorization, Accept"] in
    if decide (Method r = "OPTIONS") then ret (w ++ [WriteHeader StatusOK])
    else if decide (Method r ≠ "POST") then
      ret (w ++ [Error "Method not allowed" StatusMethodNotAllowed])
    else
      match Decode (Body r) with
      | inr err =>
          let* _ := log_Printf ("JSON decode error: " +:+ err) in
          let errorResp :=
            {| JSONRPCResponse.JSONRPC := "2.0";
               JSONRPCResponse.ID := Nil;
               JSONRPCResponse.Result := Nil;
               JSONRPCResponse.Error :=
                 Some {| JSONRPCError.Code := -32700;
                         JSONRPCError.Message := "Parse error";
                         JSONRPCError.Data := Str err |} |} in
          ret (Encode errorResp w).2
      | inl req =>
          let* _ := log_Printf ("Processing MCP request: method="
            +:+ JSONRPCRequest.Method req +:+ ", id="
            +:+ fmt_v (JSONRPCRequest.ID req)) in
          let* response := on_server req in
          let* _ := log_Printf ("Sending MCP response for method="
            +:+ JSONRPCRequest.Method req) in
          match Encode response w with
          | (Some err, w) =>
              let* _ := log_Printf ("Response encoding error: " +:+ err) in
              ret (w ++ [Error "Internal server error" StatusInternalServerError])
          | (None, w) => ret w
          end
      end.

Definition corsHandler (next : HandlerFunc) : HandlerFunc :=
  fun r w =>
    let w := w ++ [HeaderSet "Access-Control-Allow-Origin" "*";
                   HeaderSet "Access-Control-Allow-Methods" "GET, POST, OPTIONS";
                   HeaderSet "Access-Control-Allow-Headers"
                     "Content-Type, Authorization, X-Requested-With";
                   HeaderSet "Access-Control-Max-Age" "86400"] in
    if decide (Method r = "OPTIONS") then ret (w ++ [WriteHeader StatusOK])
    else next r w.

End transport.

(** The header map after the calls made on [w], from the map [h]: a [Set]
    replaces the value under its key. *)
Definition Header (h : gmap string string) (w : ResponseWriter) : gmap string string :=
  foldl (fun h c => match c with HeaderSet key value => <[key := value]> h | _ => h end)
        h w.


End transport.

(** * Properties of the color store *)

Section storage_properties.
Import storage.

Lemma string_app_nil_r (s : string) : s +:+ "" = s.
Proof.
  induction s as [|a s IH]; [done|].
  change (String a (s +:+ "") = String a s). by rewrite IH.
Qed.

Lemma string_app_assoc (s1 s2 s3 : string) :
  (s1 +:+ s2) +:+ s3 = s1 +:+ (s2 +:+ s3).
Proof.
  induction s1 as [|a s1 IH]; [done|].
  change (String a ((s1 +:+ s2) +:+ s3) = String a (s1 +:+ (s2 +:+ s3))).
  by rewrite IH.
Qed.

Lemma range_find_true color l : range_find color l = true ↔ color ∈ l.
Proof.
  induction l as [|x l IH]; cbn.
  - rewrite elem_of_nil. split; [discriminate | tauto].
  - rewrite elem_of_cons. case_decide; subst.
    + tauto.
    + rewrite IH. split; [tauto|]. intros [->|?]; [congruence|done].
Qed.

Lemma range_find_false color l : range_find color l = false ↔ color ∉ l.
Proof.
  rewrite <-range_find_true. destruct (range_find color l); split; congruence.
Qed.

(** The loop of [RemoveColor] stops at the first match. *)
Lemma range_index_Some color i0 l i :
  range_index color i0 l = Some i →
  ∃ l1 l2, l = l1 ++ color :: l2 ∧ (color ∉ l1) ∧ i = i0 + length l1.
Proof.
  revert i0. induction l as [|x l IH]; intros i0; cbn; [discriminate|].
  case_decide; subst.
  - intros [= <-]. exists [], l. rewrite elem_of_nil. cbn. split_and!; [done|tauto|lia].
  - intros (l1 & l2 & -> & Hl1 & ->)%IH. exists (x :: l1), l2.
    rewrite elem_of_cons. cbn. split_and!; [done| |lia].
    intros [->|?]; [congruence|done].
Qed.

Lemma range_index_None color i0 l :
  range_index color i0 l = None ↔ color ∉ l.
Proof.
  revert i0. induction l as [|x l IH]; intros i0; cbn.
  - rewrite elem_of_nil. tauto.
  - rewrite elem_of_cons. case_decide; subst.
    + split; [discriminate|]. intros []; by left.
    + rewrite IH. split; [|tauto]. intros ? [->|?]; [congruence|done].
Qed.

Lemma range_index_elem color l :
  color ∈ l →
  ∃ l1 l2, l = l1 ++ color :: l2 ∧ (color ∉ l1) ∧
           range_index color 0 l = Some (length l1).
Proof.
  intros Hin. destruct (range_index color 0 l) as [i|] eqn:Hi.
  - destruct (range_index_Some _ _ _ _ Hi) as (l1 & l2 & -> & ? & ->).
    by exists l1, l2.
  - by apply range_index_None in Hi.
Qed.

(** Removing index [length l1] from [l1 ++ x :: l2] with the two slices. *)
Lemma take_drop_remove (l1 l2 : list string) (x : string) :
  take (length l1) (l1 ++ x :: l2) ++ drop (length l1 + 1) (l1 ++ x :: l2) = l1 ++ l2.
Proof.
  rewrite take_app_length. f_equal.
  replace (length l1 + 1) with (length l1 + length [x]) by (cbn; lia).
  by rewrite (drop_app_add' l1 (x :: l2) _ 1).
Qed.

Lemma copy_make (l : list string) : copy (make (length l)) l = l.
Proof.
  unfold copy, make. rewrite length_replicate, Nat.min_id.
  rewrite firstn_all, drop_ge by (rewrite length_replicate; lia).
  by rewrite app_nil_r.
Qed.

(** The text of the loop of [GetColors]: the lines are appended in order,
    line [k] of the loop numbered [i + k + 1]. *)
Lemma range_render_lines text i l :
  range_render text i l =
  text +:+ foldr String.append ""
             (imap (λ k color, fmt_d (i + k + 1) +:+ ". " +:+ color +:+ nl) l).
Proof.
  revert text i. induction l as [|x l IH]; intros text i; cbn [range_render].
  - symmetry. apply string_app_nil_r.
  - rewrite IH, imap_cons. cbn [foldr]. rewrite string_app_assoc, Nat.add_0_r.
    do 2 f_equal. f_equal. apply imap_ext. intros k y _. cbn.
    do 2 f_equal. lia.
Qed.

Lemma AddColor_present cs color :
  color ∈ colors cs →
  AddColor color cs =
    (("Color '" +:+ color +:+ "' is already in your favorites", false),
     {| colors := colors cs; mutex := mutex cs ++ [Lock; Unlock] |}).
Proof.
  intros Hin%range_find_true. unfold AddColor, locked, AddColor_body.
  by rewrite Hin.
Qed.

Lemma AddColor_absent cs color :
  color ∉ colors cs →
  AddColor color cs =
    (("Successfully added '" +:+ color +:+ "' to your favorite colors!", true),
     {| colors := colors cs ++ [color]; mutex := mutex cs ++ [Lock; Unlock] |}).
Proof.
  intros Hin%range_find_false. unfold AddColor, locked, AddColor_body.
  by rewrite Hin.
Qed.

Lemma RemoveColor_present cs color :
  color ∈ colors cs →
  ∃ l1 l2, colors cs = l1 ++ color :: l2 ∧ (color ∉ l1) ∧
    RemoveColor color cs =
      (("Successfully removed '" +:+ color +:+ "' from your favorite colors!", true),
       {| colors := l1 ++ l2; mutex := mutex cs ++ [Lock; Unlock] |}).
Proof.
  intros (l1 & l2 & Hl & Hl1 & Hi)%range_index_elem. exists l1, l2.
  split_and!; [done..|]. unfold RemoveColor, locked, RemoveColor_body.
  rewrite Hi, Hl. by rewrite take_drop_remove.
Qed.

Lemma RemoveColor_absent cs color :
  color ∉ colors cs →
  RemoveColor color cs =
    (("Color '" +:+ color +:+ "' was not found in your favorites", false),
     {| colors := colors cs; mutex := mutex cs ++ [Lock; Unlock] |}).
Proof.
  intros Hi%(range_index_None _ 0). unfold RemoveColor, locked, RemoveColor_body.
  by rewrite Hi.
Qed.

Lemma call_colors_NoDup c cs : NoDup (colors cs) → NoDup (colors (call c cs)).
Proof.
  intros Hnd. destruct c as [color| |color| |]; cbn [call]; try done.
  - destruct (decide (color ∈ colors cs)) as [Hin|Hin].
    + by rewrite AddColor_present.
    + rewrite AddColor_absent by done. cbn.
      apply NoDup_app. split_and!; [done| |apply NoDup_singleton].
      by intros x Hx ->%list_elem_of_singleton.
  - destruct (decide (color ∈ colors cs)) as [Hin|Hin].
    + destruct (RemoveColor_present _ _ Hin) as (l1 & l2 & Hl & _ & ->). cbn.
      rewrite Hl in Hnd.
      apply NoDup_app in Hnd as (? & Hd & [_ ?]%NoDup_cons).
      apply NoDup_app. split_and!; [done| |done].
      intros x Hx Hx2. apply (Hd x Hx). by right.
    + by rewrite RemoveColor_absent.
  - apply NoDup_nil_2.
Qed.

Lemma run_colors_NoDup calls cs :
  NoDup (colors cs) → NoDup (colors (run cs calls)).
Proof.
  revert cs. induction calls as [|c calls IH]; intros cs Hnd; [done|].
  cbn. by apply IH, call_colors_NoDup.
Qed.

(** C1.  No two entries of the store are equal: the store reached from the
    empty one by any sequence of calls has no duplicates, and every call
    keeps a duplicate-free store duplicate-free.  [AddColor] of a color that
    is present reports [false] and leaves the colors, hence [Count], as they
    are; [AddColor] of an absent color reports [true] and appends it at the
    end. *)
Theorem AddColor_keeps_colors_distinct :
  (∀ calls, NoDup (colors (run NewColorStorage calls))) ∧
  (∀ c cs, NoDup (colors cs) → NoDup (colors (call c cs))) ∧
  (∀ cs color, color ∈ colors cs →
     ∃ message cs', AddColor color cs = ((message, false), cs') ∧
       colors cs' = colors cs ∧ (Count cs').1 = (Count cs).1) ∧
  (∀ cs color, color ∉ colors cs →
     ∃ message cs', AddColor color cs = ((message, true), cs') ∧
       colors cs' = colors cs ++ [color]).
Proof.
  split_and!.
  - intros calls. apply run_colors_NoDup, NoDup_nil_2.
  - apply call_colors_NoDup.
  - intros cs color Hin. rewrite AddColor_present by done. eauto.
  - intros cs color Hin. rewrite AddColor_absent by done. eauto.
Qed.

(** The list and the text [GetColors] computes: the literal for no colors,
    else the header with the number of colors, followed by one line per
    color, in order, line [k] (from 0) being the number [k + 1], a dot, a
    space, the color and a line feed. *)
Lemma GetColors_body_text (l : list string) :
  ∃ text, GetColors_body l = ((l, text), l) ∧
    (l = [] → text = "You have no favorite colors yet.") ∧
    (l ≠ [] →
       text = ("Your favorite colors (" +:+ fmt_d (length l)
                 +:+ " total):" +:+ nl)
              +:+ foldr String.append ""
                    (imap (λ k color, fmt_d (k + 1) +:+ ". " +:+ color +:+ nl) l)).
Proof.
  unfold GetColors_body. rewrite copy_make.
  eexists. split_and!; [reflexivity| |].
  - intros ->. done.
  - intros Hne. case_decide as Hlen.
    + by apply nil_length_inv in Hlen.
    + by rewrite range_render_lines.
Qed.

(** C7.  [RemoveColor] of a color that is present deletes its first
    occurrence, keeps the other entries in their order and reports [true];
    of an absent color it reports [false] and leaves the colors as they are.
    On a store reached from the empty one and holding the color, a second
    [RemoveColor] right after the first reports [false], and [Count] is one
    less than before the two calls. *)
Theorem RemoveColor_first_match :
  (∀ cs color, color ∈ colors cs →
     ∃ message cs' l1 l2, RemoveColor color cs = ((message, true), cs') ∧
       colors cs = l1 ++ color :: l2 ∧ (color ∉ l1) ∧ colors cs' = l1 ++ l2) ∧
  (∀ cs color, color ∉ colors cs →
     ∃ message cs', RemoveColor color cs = ((message, false), cs') ∧
       colors cs' = colors cs) ∧
  (∀ calls color,
     let cs := run NewColorStorage calls in
     color ∈ colors cs →
     ∃ message1 cs1 message2 cs2,
       RemoveColor color cs = ((message1, true), cs1) ∧
       RemoveColor color cs1 = ((message2, false), cs2) ∧
       (Count cs2).1 + 1 = (Count cs).1).
Proof.
  split_and!.
  - intros cs color Hin.
    destruct (RemoveColor_present _ _ Hin) as (l1 & l2 & Hl & Hl1 & ->).
    by eexists _, _, l1, l2.
  - intros cs color Hin. rewrite RemoveColor_absent by done. eauto.
  - intros calls color cs Hin.
    assert (NoDup (colors cs)) as Hnd by apply run_colors_NoDup, NoDup_nil_2.
    destruct (RemoveColor_present _ _ Hin) as (l1 & l2 & Hl & Hl1 & ->).
    rewrite Hl in Hnd. apply NoDup_app in Hnd as (_ & Hd & [Hl2 _]%NoDup_cons).
    eexists _, _, _, _. split; [reflexivity|].
    rewrite RemoveColor_absent; cbn.
    + split; [reflexivity|]. rewrite Hl, !length_app. cbn. rewrite length_app. lia.
    + rewrite not_elem_of_app. done.
Qed.

(** C8.  [ClearColors] on a store of [N] colors returns [N] (the value
    [Count] had), with the message naming [N], and leaves the store empty,
    so that [Count] is 0 afterwards; on the empty store it returns 0 and the
    store stays empty. *)
Theorem ClearColors_reports_previous_count :
  (∀ cs, ∃ cs',
     ClearColors cs =
       (("Successfully cleared " +:+ fmt_d (length (colors cs))
           +:+ " favorite colors!", length (colors cs)), cs') ∧
     (Count cs).1 = length (colors cs) ∧
     colors cs' = [] ∧ (Count cs').1 = 0) ∧
  (∀ cs, colors cs = [] →
     (ClearColors cs).1.2 = 0 ∧ colors (ClearColors cs).2 = []).
Proof.
  split.
  - intros cs. by eexists.
  - intros cs Hcs. unfold ClearColors, locked, ClearColors_body. cbn.
    by rewrite Hcs.
Qed.

End storage_properties.

(** * The methods of the store on the slice in memory *)

Section slices_properties.
Import storage slices.

Variable spare : nat → nat → nat.

Lemma store_lookup_ne s i xs (h : Heap) a :
  a ≠ array s → store s i xs h !! a = h !! a.
Proof. intros Hne. unfold store. by rewrite list_lookup_alter_ne. Qed.

Lemma store_lookup s i xs (h : Heap) arr :
  h !! array s = Some arr →
  store s i xs h !! array s =
  Some (take (offset s + i) arr ++ xs ++ drop (offset s + i + length xs) arr).
Proof.
  intros Harr. unfold store.
  rewrite list_lookup_alter, decide_True by done. by rewrite Harr.
Qed.

Lemma length_store s i xs (h : Heap) : length (store s i xs h) = length h.
Proof. apply length_alter. Qed.

Lemma length_elements (h : Heap) s arr :
  h !! array s = Some arr → offset s + len s ≤ length arr →
  length (elements h s) = len s.
Proof.
  intros Harr Hlen. unfold elements. rewrite Harr. cbn.
  rewrite length_take, length_drop. lia.
Qed.

(** The elements written at the end of a prefix of the array. *)
Lemma take_drop_written (arr xs : list string) off n :
  off + n ≤ length arr →
  take (n + length xs)
    (drop off (take (off + n) arr ++ xs ++ drop (off + n + length xs) arr)) =
  take n (drop off arr) ++ xs.
Proof.
  intros Hlen.
  rewrite drop_app_le by (rewrite length_take; lia).
  rewrite <-take_drop_commute, app_assoc.
  rewrite take_app_le by (rewrite length_app, length_take, length_drop; lia).
  rewrite take_ge; [done|]. rewrite length_app, length_take, length_drop. lia.
Qed.

(** [append]: the elements, where the result lives, and what it leaves as
    it was. *)
Lemma append_spec s xs (h : Heap) arr :
  h !! array s = Some arr → len s ≤ cap s → offset s + cap s ≤ length arr →
  ∃ s' h' arr',
    append spare s xs h = (s', h') ∧
    elements h' s' = elements h s ++ xs ∧
    h' !! array s' = Some arr' ∧ len s' ≤ cap s' ∧
    offset s' + cap s' ≤ length arr' ∧
    length h ≤ length h' ∧
    (∀ a, a ≠ array s → a < length h → h' !! a = h !! a) ∧
    (array s' = array s ∨ length h ≤ array s').
Proof.
  intros Harr Hlen Hcap. unfold append. case_decide as Hfit.
  - eexists _, _, _. split; [done|]. cbn.
    split_and!; [|by apply store_lookup|done| |by rewrite length_store| |by left].
    + unfold elements. cbn. rewrite (store_lookup _ _ _ _ _ Harr), Harr. cbn.
      apply take_drop_written. lia.
    + rewrite !length_app, length_take, length_drop. lia.
    + intros a Ha _. by apply store_lookup_ne.
  - eexists _, _, _. split; [done|]. cbn.
    split_and!; [|by apply list_lookup_middle|lia| |rewrite length_app; lia| |by right].
    + pose proof (length_elements _ _ _ Harr ltac:(lia)) as Hes.
      remember (elements h s) as es. unfold elements. cbn [array offset len].
      rewrite list_lookup_middle by done. simpl.
      rewrite drop_0, app_assoc, take_app_le, take_ge; [done| |];
        rewrite length_app; lia.
    + rewrite !length_app, length_replicate, (length_elements _ _ _ Harr); lia.
    + intros a _ Ha. by apply lookup_app_l.
Qed.

Lemma preserves_refl cs : preserves cs cs.
Proof. split_and!; [done|done|by left]. Qed.

(** A slice apart from [cs.colors] keeps its elements. *)
Lemma preserves_apart s cs cs' :
  well_formed cs → preserves cs cs' → apart s cs →
  apart s cs' ∧ elements (heap cs') s = elements (heap cs) s.
Proof.
  intros (arr & Harr & _) (Hlen & Hsame & Hwhere) [Hlt Hne].
  apply lookup_lt_Some in Harr. split.
  - split; [lia|]. destruct Hwhere as [->|?]; [done|lia].
  - unfold elements. by rewrite Hsame.
Qed.

Lemma AddColor_refines cs color :
  well_formed cs →
  ∃ r cs', AddColor spare color cs = (r, cs') ∧
    well_formed cs' ∧ preserves cs cs' ∧
    AddColor_body color (elements (heap cs) (colors cs))
      = (r, elements (heap cs') (colors cs')).
Proof.
  intros (arr & Harr & Hlen & Hcap). unfold AddColor, AddColor_body.
  destruct (range_find color _).
  - eexists _, _. split; [done|].
    split_and!; [by exists arr|apply preserves_refl|done].
  - destruct (append_spec (colors cs) [color] _ _ Harr Hlen Hcap)
      as (s' & h' & arr' & -> & Hel & Harr' & Hlen' & Hcap' & Hh & Hsame & Hwhere).
    eexists _, _. split; [done|]. split_and!; cbn.
    + by exists arr'.
    + by split_and!.
    + by rewrite Hel.
Qed.

(** The two slices around index [i], one after the other. *)
Lemma elements_reslice_remove (h : Heap) s arr i :
  h !! array s = Some arr → offset s + len s ≤ length arr → i < len s →
  elements h (reslice s 0 i) ++ elements h (reslice s (i + 1) (len s)) =
  take i (elements h s) ++ drop (i + 1) (elements h s).
Proof.
  intros Harr Hlen Hi. unfold elements, reslice. cbn. rewrite Harr. cbn.
  rewrite Nat.sub_0_r, Nat.add_0_r, take_take, Nat.min_l by lia. f_equal.
  rewrite <-drop_drop, take_drop_commute. do 2 f_equal. lia.
Qed.

Lemma RemoveColor_refines cs color :
  well_formed cs →
  ∃ r cs', RemoveColor spare color cs = (r, cs') ∧
    well_formed cs' ∧ preserves cs cs' ∧
    RemoveColor_body color (elements (heap cs) (colors cs))
      = (r, elements (heap cs') (colors cs')).
Proof.
  intros (arr & Harr & Hlen & Hcap). unfold RemoveColor, RemoveColor_body.
  destruct (range_index color 0 _) as [i|] eqn:Hi.
  - assert (i < len (colors cs)) as Hlt.
    { apply range_index_Some in Hi as (l1 & l2 & Hl & _ & ->).
      rewrite <-(length_elements (heap cs) (colors cs) arr) by (done || lia).
      rewrite Hl, length_app. cbn. lia. }
    destruct (append_spec (reslice (colors cs) 0 i)
                (elements (heap cs) (reslice (colors cs) (i + 1) (len (colors cs))))
                (heap cs) arr)
      as (s' & h' & arr' & -> & Hel & Harr' & Hlen' & Hcap' & Hh & Hsame & Hwhere);
      cbn; [done|lia|lia|].
    eexists _, _. split; [done|]. split_and!; cbn.
    + by exists arr'.
    + by split_and!.
    + rewrite Hel. by erewrite elements_reslice_remove by (done || lia).
  - eexists _, _. split; [done|].
    split_and!; [by exists arr|apply preserves_refl|done].
Qed.

Lemma ClearColors_refines cs :
  well_formed cs →
  ∃ r cs', ClearColors cs = (r, cs') ∧
    well_formed cs' ∧ preserves cs cs' ∧
    ClearColors_body (elements (heap cs) (colors cs))
      = (r, elements (heap cs') (colors cs')).
Proof.
  intros (arr & Harr & Hlen & Hcap). unfold ClearColors, ClearColors_body. cbn.
  eexists _, _. split; [done|]. split_and!; cbn.
  - exists []. cbn. rewrite list_lookup_middle by done. split_and!; [done|lia..].
  - split_and!; cbn; [rewrite length_app; lia| |by right].
    intros a _ Ha. by apply lookup_app_l.
  - by rewrite (length_elements _ _ _ Harr) by lia.
Qed.

Lemma Count_refines cs :
  well_formed cs →
  Count_body (elements (heap cs) (colors cs))
    = ((Count cs).1, elements (heap (Count cs).2) (colors (Count cs).2)).
Proof.
  intros (arr & Harr & Hlen & Hcap). unfold Count, Count_body. cbn.
  by rewrite (length_elements _ _ _ Harr) by lia.
Qed.

(** [GetColors]: the slice it returns is in an array of its own and has
    the elements of [cs.colors]. *)
Lemma GetColors_refines cs :
  well_formed cs →
  ∃ snapshot text cs', GetColors cs = ((snapshot, text), cs') ∧
    well_formed cs' ∧ preserves cs cs' ∧ apart snapshot cs' ∧
    colors cs' = colors cs ∧
    GetColors_body (elements (heap cs) (colors cs))
      = ((elements (heap cs') snapshot, text), elements (heap cs') (colors cs')).
Proof.
  intros (arr & Harr & Hlen & Hcap).
  pose proof (lookup_lt_Some _ _ _ Harr) as Hlt.
  pose proof (length_elements _ _ _ Harr ltac:(lia)) as Hes.
  unfold GetColors, GetColors_body. cbn. rewrite Nat.min_id.
  set (h1 := heap cs ++ [replicate (len (colors cs)) ""]).
  set (snapshot := {| array := length (heap cs); offset := 0;
                      len := len (colors cs); cap := len (colors cs) |}).
  assert (elements h1 (colors cs) = elements (heap cs) (colors cs)) as Hsrc.
  { unfold elements, h1. by rewrite lookup_app_l. }
  set (h2 := store snapshot 0 (take (len (colors cs)) (elements h1 (colors cs))) h1).
  assert (elements h2 (colors cs) = elements (heap cs) (colors cs)) as Hkept.
  { rewrite <-Hsrc. unfold elements, h2. rewrite store_lookup_ne; [done|].
    cbn. lia. }
  assert (elements h2 snapshot = elements (heap cs) (colors cs)) as Hcopy.
  { unfold elements at 1, h2.
    rewrite (store_lookup snapshot 0 _ h1 (replicate (len (colors cs)) ""))
      by apply list_lookup_middle, eq_refl.
    cbn. rewrite Hsrc, drop_0, take_0. cbn.
    rewrite (take_ge (elements _ _)) by lia.
    rewrite drop_ge by (rewrite length_replicate; lia).
    rewrite app_nil_r, take_ge by lia. done. }
  assert (length h2 = S (length (heap cs))) as Hlen2.
  { unfold h2, h1. rewrite length_store, length_app. cbn. lia. }
  assert (∀ a, a < length (heap cs) → h2 !! a = heap cs !! a) as Hold.
  { intros a Ha. unfold h2. rewrite store_lookup_ne by (cbn; lia).
    by apply lookup_app_l. }
  exists snapshot, (if decide (len snapshot = 0)
                    then "You have no favorite colors yet."
                    else range_render ("Your favorite colors ("
                           +:+ fmt_d (len snapshot) +:+ " total):" +:+ nl)
                           0 (elements h2 snapshot)),
         {| heap := h2; colors := colors cs |}.
  split; [done|]. clearbody h2 h1. cbn [heap colors].
  split_and!.
  - exists arr. split_and!; [|done..]. by rewrite Hold.
  - split_and!; cbn [heap colors]; [lia| |by left]. intros a _ Ha. by apply Hold.
  - split; cbn; lia.
  - done.
  - rewrite copy_make, Hcopy, Hkept, Hes. done.
Qed.

Lemma call_well_formed c cs :
  well_formed cs → well_formed (call spare c cs) ∧ preserves cs (call spare c cs).
Proof.
  intros Hwf. destruct c as [color| |color| |]; cbn [call].
  - by destruct (AddColor_refines cs color Hwf) as (r & cs' & -> & ? & ? & _).
  - by destruct (GetColors_refines cs Hwf) as (sn & text & cs' & -> & ? & ? & _).
  - by destruct (RemoveColor_refines cs color Hwf) as (r & cs' & -> & ? & ? & _).
  - by destruct (ClearColors_refines cs Hwf) as (r & cs' & -> & ? & ? & _).
  - split; [done|apply preserves_refl].
Qed.

Lemma run_well_formed calls cs :
  well_formed cs → well_formed (run spare cs calls).
Proof.
  revert cs. induction calls as [|c calls IH]; intros cs Hwf; [done|].
  cbn. by apply IH, call_well_formed.
Qed.

Lemma NewColorStorage_well_formed : well_formed NewColorStorage.
Proof. exists []. cbn. split_and!; [done|lia..]. Qed.

(** A slice apart from [cs.colors] keeps its elements through any calls. *)
Lemma run_apart calls s cs :
  well_formed cs → apart s cs →
  elements (heap (run spare cs calls)) s = elements (heap cs) s.
Proof.
  revert cs. induction calls as [|c calls IH]; intros cs Hwf Hs; [done|].
  cbn. destruct (call_well_formed c cs Hwf) as [Hwf' Hpres].
  destruct (preserves_apart s _ _ Hwf Hpres Hs) as [Hs' <-]. by apply IH.
Qed.

(** The store in memory and the store of [storage] go through the same
    colors. *)
Lemma run_refines calls cs (abstract : storage.ColorStorage) :
  well_formed cs →
  storage.colors abstract = elements (heap cs) (colors cs) →
  storage.colors (storage.run abstract calls)
    = elements (heap (run spare cs calls)) (colors (run spare cs calls)).
Proof.
  revert cs abstract.
  induction calls as [|c calls IH]; intros cs abstract Hwf Habs; [done|].
  cbn. apply IH; [by apply call_well_formed|].
  destruct c as [color| |color| |]; cbn [call storage.call];
    unfold storage.AddColor, storage.GetColors, storage.RemoveColor,
      storage.ClearColors, storage.Count, locked; rewrite Habs.
  - destruct (AddColor_refines cs color Hwf) as (r & cs' & -> & _ & _ & ->). done.
  - destruct (GetColors_refines cs Hwf) as (sn & t & cs' & -> & _ & _ & _ & _ & ->).
    done.
  - destruct (RemoveColor_refines cs color Hwf) as (r & cs' & -> & _ & _ & ->). done.
  - destruct (ClearColors_refines cs Hwf) as (r & cs' & -> & _ & _ & ->). done.
  - by rewrite (Count_refines cs Hwf).
Qed.

(** C6.  On a store reached from the empty one, [GetColors] returns a slice
    with the elements [cs.colors] has at the call, and leaves [cs.colors] as
    it is.  The slice is in an array of its own: whatever calls follow, its
    elements stay those of the call (a snapshot).  The text is the literal
    "You have no favorite colors yet." for the empty store; otherwise it is
    the header with the number of colors, followed by one line per color, in
    the order of the store, line [k] (from 0) being the number [k + 1], a
    dot, a space, the color and a line feed.  The method of [storage], over
    lists, returns the same elements and the same text. *)
Theorem GetColors_snapshot_and_text (calls : list Call) :
  let cs := run spare NewColorStorage calls in
  let stored := elements (heap cs) (colors cs) in
  ∃ snapshot text cs',
    GetColors cs = ((snapshot, text), cs') ∧
    elements (heap cs') snapshot = stored ∧
    elements (heap cs') (colors cs') = stored ∧
    array snapshot ≠ array (colors cs') ∧
    (∀ later, elements (heap (run spare cs' later)) snapshot = stored) ∧
    (stored = [] → text = "You have no favorite colors yet.") ∧
    (stored ≠ [] →
       text = ("Your favorite colors (" +:+ fmt_d (length stored)
                 +:+ " total):" +:+ nl)
              +:+ foldr String.append ""
                    (imap (λ k color, fmt_d (k + 1) +:+ ". " +:+ color +:+ nl)
                       stored)) ∧
    (storage.GetColors (storage.run storage.NewColorStorage calls)).1
      = (stored, text).
Proof.
  intros cs stored.
  assert (well_formed cs) as Hwf
    by apply run_well_formed, NewColorStorage_well_formed.
  assert (storage.colors (storage.run storage.NewColorStorage calls) = stored)
    as Habs by (by apply run_refines; [apply NewColorStorage_well_formed|]).
  destruct (GetColors_refines cs Hwf)
    as (snapshot & text & cs' & Hget & Hwf' & Hpres & Happ & Hcolors & Hbody).
  destruct (GetColors_body_text stored) as (text' & Hbody' & Hempty & Hlines).
  fold stored in Hbody. rewrite Hbody in Hbody'.
  injection Hbody' as Hsnap <- Hkept.
  exists snapshot, text, cs'. split_and!; try done.
  - apply Happ.
  - intros later. by rewrite run_apart.
  - unfold storage.GetColors, locked. by rewrite Habs, Hbody, Hsnap.
Qed.

End slices_properties.

(** * Properties of the dispatcher *)

Section dispatcher_properties.
Import storage mcp.

Variable map_range : gmap string (Tool.t any) → list (string * Tool.t any).

Lemma assert_map_Some v m : assert_map v = Some m ↔ v = Map m.
Proof. destruct v; cbn; split; congruence. Qed.

Lemma assert_string_index m key s :
  assert_string (index m key) = Some s ↔ m !! key = Some (Str s).
Proof.
  unfold index. destruct (m !! key) as [[]|]; cbn; split; congruence.
Qed.

(** A handler that calls one method of the store and wraps its message. *)
Lemma delegate_text {A} (method : State ColorStorage (string * A)) req s :
  (let* (message, _) := on_storage method in
   ret (result_response req (text_content message))) s =
  (result_response req (text_content (method (storage s)).1.1),
   {| tools := tools s; storage := (method (storage s)).2 |}).
Proof.
  unfold bind, ret, on_storage. by destruct (method (storage s)) as [[message a] cs].
Qed.

Lemma handleGetColors_eq req args s :
  handleGetColors req args s =
  (result_response req (text_content (GetColors (storage s)).1.2),
   {| tools := tools s; storage := (GetColors (storage s)).2 |}).
Proof.
  unfold handleGetColors, bind, ret, on_storage.
  by destruct (GetColors (storage s)) as [[l text] cs].
Qed.

(** The two handlers with a [color] argument have the same shape. *)
Lemma handleAddColor_eq req args s :
  handleAddColor req args s =
  match args !! "color" with
  | Some (Str color) =>
      if decide (color = "") then
        (error_response req (-32602) "Color parameter required", s)
      else
        (result_response req (text_content (AddColor color (storage s)).1.1),
         {| tools := tools s; storage := (AddColor color (storage s)).2 |})
  | _ => (error_response req (-32602) "Color parameter required", s)
  end.
Proof.
  unfold handleAddColor, index.
  destruct (args !! "color") as [[]|]; cbn; try done.
  case_decide; [done|]. apply delegate_text.
Qed.

Lemma handleRemoveColor_eq req args s :
  handleRemoveColor req args s =
  match args !! "color" with
  | Some (Str color) =>
      if decide (color = "") then
        (error_response req (-32602) "Color parameter required", s)
      else
        (result_response req (text_content (RemoveColor color (storage s)).1.1),
         {| tools := tools s; storage := (RemoveColor color (storage s)).2 |})
  | _ => (error_response req (-32602) "Color parameter required", s)
  end.
Proof.
  unfold handleRemoveColor, index.
  destruct (args !! "color") as [[]|]; cbn; try done.
  case_decide; [done|]. apply delegate_text.
Qed.

(** Every path of the dispatcher ends in one of the two response literals:
    the error one, with the server as it was, or the result one. *)
Lemma HandleRequest_shape req s :
  (∃ code message,
     HandleRequest map_range req s = (error_response req code message, s)) ∨
  (∃ result cs,
     HandleRequest map_range req s =
       (result_response req result, {| tools := tools s; storage := cs |})).
Proof.
  unfold HandleRequest, handleToolsCall.
  repeat case_decide.
  - right. destruct s. by eexists _, _.
  - right. destruct s. by eexists _, _.
  - destruct (assert_map _) as [params|]; [|left; by eexists _, _].
    destruct (assert_string _) as [toolName|]; [|left; by eexists _, _].
    repeat case_decide.
    + rewrite handleAddColor_eq.
      destruct (_ !! "color") as [[]|]; try (left; by eexists _, _).
      case_decide; [left|right]; by eexists _, _.
    + rewrite handleGetColors_eq. right. by eexists _, _.
    + rewrite handleRemoveColor_eq.
      destruct (_ !! "color") as [[]|]; try (left; by eexists _, _).
      case_decide; [left|right]; by eexists _, _.
    + unfold handleClearColors. rewrite delegate_text. right. by eexists _, _.
    + left. by eexists _, _.
  - left. by eexists _, _.
Qed.

(** C2.  Every response of the dispatcher has the version tag "2.0" and
    the identifier of the request ([nil] when the request had none), and has
    exactly one of [Result] and [Error] set. *)
Theorem HandleRequest_response_envelope req s :
  let resp := (HandleRequest map_range req s).1 in
  JSONRPCResponse.JSONRPC resp = "2.0" ∧
  JSONRPCResponse.ID resp = JSONRPCRequest.ID req ∧
  (JSONRPCRequest.ID req = Nil → JSONRPCResponse.ID resp = Nil) ∧
  ((JSONRPCResponse.Result resp ≠ Nil ∧ JSONRPCResponse.Error resp = None) ∨
   (JSONRPCResponse.Result resp = Nil ∧ JSONRPCResponse.Error resp ≠ None)).
Proof.
  destruct (HandleRequest_shape req s) as [(code & message & ->)|(result & cs & ->)];
    cbn; split_and!; try done.
  - by right.
  - by left.
Qed.

(** C3.  A [tools/call] request whose params are not a
    [map[string]interface{}], or are one without a string under [name], is
    answered with error -32602 set in [handleToolsCall] itself, and the
    server is as before: no method of the store was entered (its lock
    history has not grown). *)
Theorem handleToolsCall_invalid_params req s :
  JSONRPCRequest.Method req = "tools/call" →
  (∀ params, JSONRPCRequest.Params req = Map params →
     ∀ toolName, params !! "name" ≠ Some (Str toolName)) →
  ∃ resp e,
    HandleRequest map_range req s = (resp, s) ∧
    JSONRPCResponse.Result resp = Nil ∧
    JSONRPCResponse.Error resp = Some e ∧
    JSONRPCError.Code e = (-32602)%Z ∧
    (JSONRPCError.Message e = "Invalid params" ∨
     JSONRPCError.Message e = "Tool name required").
Proof.
  intros Hm Hbad. unfold HandleRequest, handleToolsCall. rewrite Hm.
  repeat (case_decide; [done|]). case_decide; [|done].
  destruct (assert_map _) as [params|] eqn:Hp.
  - apply assert_map_Some in Hp.
    destruct (assert_string _) as [toolName|] eqn:Hn.
    + apply assert_string_index in Hn. by destruct (Hbad _ Hp toolName).
    + eexists _, _. split_and!; try done. by right.
  - eexists _, _. split_and!; try done. by left.
Qed.


(** C5.  A [tools/call] request whose tool name is a string other than the
    four tool names is answered with error -32601, and so is a request whose
    method is none of [initialize], [tools/list] and [tools/call]; the
    server is as before. *)
Theorem unknown_tool_or_method_not_found req s :
  (JSONRPCRequest.Method req = "tools/call" →
   ∀ params toolName,
     JSONRPCRequest.Params req = Map params →
     params !! "name" = Some (Str toolName) →
     toolName ∉ ["add_color"; "get_colors"; "remove_color"; "clear_colors"] →
     ∃ resp e, HandleRequest map_range req s = (resp, s) ∧
       JSONRPCResponse.Result resp = Nil ∧
       JSONRPCResponse.Error resp = Some e ∧
       JSONRPCError.Code e = (-32601)%Z ∧
       JSONRPCError.Message e = "Tool not found") ∧
  (JSONRPCRequest.Method req ∉ ["initialize"; "tools/list"; "tools/call"] →
   ∃ resp e, HandleRequest map_range req s = (resp, s) ∧
     JSONRPCResponse.Result resp = Nil ∧
     JSONRPCResponse.Error resp = Some e ∧
     JSONRPCError.Code e = (-32601)%Z ∧
     JSONRPCError.Message e = "Method not found").
Proof.
  split.
  - intros Hm params toolName Hp Hn Hother.
    unfold HandleRequest, handleToolsCall. rewrite Hm, Hp. cbn [assert_map].
    repeat (case_decide; [done|]). case_decide; [|done].
    apply assert_string_index in Hn as ->.
    rewrite !not_elem_of_cons in Hother. destruct Hother as (? & ? & ? & ? & _).
    repeat (case_decide; [done|]). by eexists _, _.
  - intros Hother. rewrite !not_elem_of_cons in Hother.
    destruct Hother as (? & ? & ? & _).
    unfold HandleRequest. repeat (case_decide; [done|]). by eexists _, _.
Qed.

(** C9.  When the response carries an error, the server, and with it the
    store (its colors and its lock history), is as it was before the
    request. *)
Theorem error_response_leaves_store req s :
  JSONRPCResponse.Error (HandleRequest map_range req s).1 ≠ None →
  (HandleRequest map_range req s).2 = s ∧
  storage.colors (storage (HandleRequest map_range req s).2)
    = storage.colors (storage s).
Proof.
  destruct (HandleRequest_shape req s) as [(code & message & ->)|(result & cs & ->)];
    cbn; [done|]. intros []; done.
Qed.

End dispatcher_properties.

(** * Properties of concurrent calls of the store *)

Section goroutines_properties.
Import storage goroutines.

Lemma run_seq_app ms1 ms2 l :
  run_seq (ms1 ++ ms2) l =
  let '(rs1, l1) := run_seq ms1 l in
  let '(rs2, l2) := run_seq ms2 l1 in
  (rs1 ++ rs2, l2).
Proof.
  revert l. induction ms1 as [|m ms1 IH]; intros l; cbn.
  - by destruct (run_seq ms2 l).
  - destruct (method_body m l) as [r l']. rewrite IH.
    destruct (run_seq ms1 l') as [rs1 l1]. by destruct (run_seq ms2 l1).
Qed.

Lemma method_of_Some ms t m : ms !! t = Some m → method_of ms t = m.
Proof. unfold method_of. by intros ->. Qed.

(** The result of goroutine [t'] after goroutine [t] has moved to [g]. *)
Lemma lookup_insert_committed (gs : list Goroutine) t t' g :
  t < length gs →
  <[t:=g]> gs !! t' ≫= committed =
  if decide (t' = t) then committed g else gs !! t' ≫= committed.
Proof.
  intros Hlt. case_decide as Ht; subst.
  - by rewrite list_lookup_insert_eq.
  - by rewrite list_lookup_insert_ne.
Qed.

(** A goroutine that does not hold the lock is outside the critical
    section, where nothing depends on the shared memory. *)
Lemma goroutine_ok_other ms c c' t g :
  goroutine_ok ms c t g → holder c ≠ Some t → goroutine_ok ms c' t g.
Proof. destruct g; cbn; intros Hok Hh; try done; by destruct_and?. Qed.

Lemma linearized_ext ms l0 l (result result' : nat → option Returned) :
  (∀ t, result' t = result t) →
  linearized ms l0 l result → linearized ms l0 l result'.
Proof.
  intros Hext (order & rs & Hnd & Hall & Hrun & Hres).
  exists order, rs. split_and!; [done| |done|].
  - intros t r. rewrite Hext. apply Hall.
  - eapply Forall2_impl; [done|]. intros t r. cbn. by rewrite Hext.
Qed.

(** The goroutine that sets its result comes next in the order. *)
Lemma linearized_commit ms l0 l l' (result result' : nat → option Returned) t m r :
  linearized ms l0 l result →
  result t = None →
  ms !! t = Some m →
  method_body m l = (r, l') →
  (∀ t', result' t' = if decide (t' = t) then Some r else result t') →
  linearized ms l0 l' result'.
Proof.
  intros (order & rs & Hnd & Hall & Hrun & Hres) Hnone Hm Hbody Hnew.
  assert (t ∉ order) as Hnotin.
  { intros Hin. apply list_elem_of_lookup in Hin as [i Hi].
    destruct (Forall2_lookup_l _ _ _ _ _ Hres Hi) as (r' & _ & Hr').
    congruence. }
  exists (order ++ [t]), (rs ++ [r]). split_and!.
  - apply NoDup_app. split_and!; [done| |apply NoDup_singleton].
    by intros t' Hin ->%list_elem_of_singleton.
  - intros t' r'. rewrite Hnew, elem_of_app, list_elem_of_singleton.
    case_decide; [by right|]. intros Hr'. left. by eapply Hall.
  - rewrite fmap_app, run_seq_app, Hrun. cbn.
    by rewrite (method_of_Some _ _ _ Hm), Hbody.
  - apply Forall2_app.
    + apply Forall2_same_length_lookup in Hres as [Hlen Hres].
      apply Forall2_same_length_lookup. split; [done|].
      intros i t' r' Ht' Hr'. rewrite Hnew. case_decide; [|by eapply Hres].
      subst. destruct Hnotin. by eapply list_elem_of_lookup_2.
    + constructor; [|constructor]. rewrite Hnew. by case_decide.
Qed.

Lemma init_invariant ms l0 : invariant ms l0 (init l0 ms).
Proof.
  split_and!; cbn.
  - by rewrite length_fmap.
  - intros t g [m [-> Hm]]%list_lookup_fmap_Some. done.
  - done.
  - exists [], []. split_and!; [constructor| |done|constructor].
    intros t r. unfold result_of. cbn. rewrite list_lookup_fmap.
    by destruct (ms !! t).
Qed.

(** The invariant after goroutine [t], which was in state [g], has run one
    statement that leaves it in state [g'], the colors being [l'] and the
    holder of the lock [h'] afterwards. *)
Lemma invariant_update ms l0 c t g g' l' h' :
  invariant ms l0 c →
  goroutines c !! t = Some g →
  (holder c = None ∨ holder c = Some t) →
  let c' := {| colors := l'; holder := h'; goroutines := <[t:=g']> (goroutines c) |} in
  goroutine_ok ms c' t g' →
  (h' = None ∨ h' = Some t ∧ in_critical_section g') →
  linearized ms l0 l' (λ t', if decide (t' = t) then committed g' else result_of c t') →
  invariant ms l0 c'.
Proof.
  intros (Hlen & Hok & Hhold & Hlin) Hg Hfree c' Hokg' Hh' Hlin'.
  assert (t < length (goroutines c)) as Hlt by (by eapply lookup_lt_Some).
  split_and!; cbn.
  - by rewrite length_insert.
  - intros t' g''. destruct (decide (t' = t)) as [->|Hne].
    + rewrite list_lookup_insert_eq by done. by intros [= <-].
    + rewrite list_lookup_insert_ne by done. intros Hg''.
      eapply goroutine_ok_other; [by apply Hok|].
      destruct Hfree as [Hfree|Hfree]; rewrite Hfree; congruence.
  - intros t' ->. destruct Hh' as [?|[[= ->] ?]]; [done|].
    exists g'. by rewrite list_lookup_insert_eq.
  - eapply linearized_ext; [|done]. intros t'. unfold result_of. cbn.
    by apply lookup_insert_committed.
Qed.

(** Every statement keeps the invariant. *)
Lemma step_invariant ms l0 t c c' :
  invariant ms l0 c → step t c = Some c' → invariant ms l0 c'.
Proof.
  intros Hinv Hstep. pose proof Hinv as (Hlen & Hok & Hhold & Hlin).
  unfold step in Hstep.
  destruct (goroutines c !! t) as [g|] eqn:Hg; [|done].
  pose proof (Hok _ _ Hg) as Hokg.
  assert (result_of c t = committed g) as Hres by (unfold result_of; by rewrite Hg).
  assert (∀ g', committed g' = committed g →
    linearized ms l0 (colors c)
      (λ t', if decide (t' = t) then committed g' else result_of c t')) as Hsame.
  { intros g' Hg'. eapply linearized_ext; [|done]. intros t'. cbn.
    case_decide; [subst; congruence|done]. }
  assert (∀ m r l', ms !! t = Some m → committed g = None →
    method_body m (colors c) = (r, l') →
    linearized ms l0 l'
      (λ t', if decide (t' = t) then Some r else result_of c t')) as Hcommit.
  { intros m r l' Hm Hnone Hbody. eapply linearized_commit; try done.
    by rewrite Hres. }
  destruct g as [m|m|color found|color i|n|r|r]; cbn in Hokg.
  - destruct (holder c) eqn:Hh; [done|]. injection Hstep as <-.
    eapply invariant_update; cbn; eauto. by apply (Hsame (Locked m)).
  - destruct Hokg as [Hm Hh]. injection Hstep as <-.
    eapply invariant_update; cbn; eauto.
    + destruct m; cbn; eauto.
    + right. split; [done|]. by destruct m.
    + apply Hsame. by destruct m.
  - destruct Hokg as (Hm & Hh & ->).
    destruct (range_find color (colors c)) eqn:Hf; injection Hstep as <-;
      (eapply invariant_update; cbn; eauto; []);
      (eapply Hcommit; [done..|]); cbn; unfold AddColor_body; by rewrite Hf.
  - destruct Hokg as (Hm & Hh & ->).
    destruct (range_index color 0 (colors c)) as [i|] eqn:Hi; injection Hstep as <-;
      (eapply invariant_update; cbn; eauto; []);
      (eapply Hcommit; [done..|]); cbn; unfold RemoveColor_body; by rewrite Hi.
  - destruct Hokg as (Hm & Hh & ->). injection Hstep as <-.
    eapply invariant_update; cbn; eauto.
  - injection Hstep as <-.
    eapply invariant_update; cbn; eauto. by apply (Hsame (Done r)).
  - done.
Qed.

Lemma exec_invariant ms l0 schedule c c' :
  invariant ms l0 c → exec schedule c = Some c' → invariant ms l0 c'.
Proof.
  revert c. induction schedule as [|t schedule IH]; intros c Hinv; cbn.
  - by intros [= <-].
  - destruct (step t c) as [c1|] eqn:Hstep; [|done].
    apply IH. by eapply step_invariant.
Qed.

(** Once every goroutine has returned, the order of the invariant holds all
    of them. *)
Lemma all_done_linearized ms l0 c :
  invariant ms l0 c → all_done c →
  ∃ order rs,
    order ≡ₚ seq 0 (length ms) ∧
    run_seq (method_of ms <$> order) l0 = (rs, colors c) ∧
    Forall2 (returned c) order rs.
Proof.
  intros (Hlen & Hok & Hhold & order & rs & Hnd & Hall & Hrun & Hres) Hdone.
  assert (∀ t r, result_of c t = Some r ↔ returned c t r) as Hret.
  { intros t r. unfold result_of, returned.
    destruct (goroutines c !! t) as [g|] eqn:Hg; cbn; [|done].
    pose proof (proj1 (Forall_lookup _ _) Hdone _ _ Hg) as Hd.
    destruct g; try done. cbn. split; congruence. }
  exists order, rs. split_and!; [|done|].
  - apply NoDup_Permutation; [done|apply NoDup_seq|].
    intros t. rewrite elem_of_seq, <-Hlen. split.
    + intros [i Hi]%list_elem_of_lookup.
      destruct (Forall2_lookup_l _ _ _ _ _ Hres Hi) as (r & _ & Hr).
      apply Hret in Hr. apply lookup_lt_Some in Hr. lia.
    + intros [_ Hlt]. destruct (lookup_lt_is_Some_2 (goroutines c) t) as [g Hg]; [lia|].
      pose proof (proj1 (Forall_lookup _ _) Hdone _ _ Hg) as Hd.
      destruct g as [| | | | | |r]; try done.
      apply (Hall t r). unfold result_of. by rewrite Hg.
  - eapply Forall2_impl; [done|]. intros t r. apply Hret.
Qed.

(** The statements left to run: each step runs one. *)
Lemma remaining_insert (gs : list Goroutine) t g g' :
  gs !! t = Some g →
  sum_list (remaining <$> <[t:=g']> gs) + remaining g =
  sum_list (remaining <$> gs) + remaining g'.
Proof.
  revert t. induction gs as [|g0 gs IH]; intros [|t]; cbn; try done.
  - intros [= ->]. lia.
  - intros Hg. rewrite <-!Nat.add_assoc. f_equal. by apply IH.
Qed.

Lemma step_remaining t c c' :
  step t c = Some c' → remaining_all c = S (remaining_all c').
Proof.
  unfold step, remaining_all.
  destruct (goroutines c !! t) as [g|] eqn:Hg; [|done].
  destruct g as [m|m|color []|color []|n|r|r]; try destruct (holder c);
    try done; intros [= <-]; cbn;
    match goal with
    | |- context [<[t:=?g']> _] =>
        pose proof (remaining_insert _ _ _ g' Hg) as Hsum
    end; try destruct m; cbn in Hsum; lia.
Qed.

Lemma exec_remaining schedule c c' :
  exec schedule c = Some c' →
  remaining_all c = length schedule + remaining_all c'.
Proof.
  revert c. induction schedule as [|t schedule IH]; intros c; cbn.
  - by intros [= <-].
  - destruct (step t c) as [c1|] eqn:Hstep; [|done].
    intros Hexec. apply step_remaining in Hstep. apply IH in Hexec. lia.
Qed.

Lemma exec_app schedule1 schedule2 c c1 :
  exec schedule1 c = Some c1 →
  exec (schedule1 ++ schedule2) c = exec schedule2 c1.
Proof.
  revert c. induction schedule1 as [|t schedule1 IH]; intros c; cbn.
  - by intros [= <-].
  - destruct (step t c); [apply IH|done].
Qed.

Lemma all_done_dec (gs : list Goroutine) :
  Forall (λ g, match g with Done _ => True | _ => False end) gs ∨
  ∃ t g, gs !! t = Some g ∧ match g with Done _ => False | _ => True end.
Proof.
  induction gs as [|g gs [IH|(t & g' & Hg' & Hnd)]].
  - left. constructor.
  - destruct g; try (right; by eexists 0, _).
    left. by constructor.
  - right. by exists (S t), g'.
Qed.

(** Unless every goroutine has returned, one of them can run its next
    statement: the holder of the lock if there is one, any other one if
    not. *)
Lemma step_progress ms l0 c :
  invariant ms l0 c → all_done c ∨ ∃ t c', step t c = Some c'.
Proof.
  intros (Hlen & Hok & Hhold & _).
  destruct (holder c) as [h|] eqn:Hh.
  - right. destruct (Hhold h eq_refl) as (g & Hg & Hcs). exists h.
    unfold step. rewrite Hg.
    destruct g as [m|m|color []|color []|n|r|r]; try done; by eexists.
  - assert (∀ t g, goroutines c !! t = Some g →
                   (∃ m, g = Ready m) ∨ (∃ r, g = Done r)) as Hout.
    { intros t g Hg. specialize (Hok _ _ Hg).
      destruct g; cbn in Hok; destruct_and?; eauto; congruence. }
    destruct (all_done_dec (goroutines c)) as [Hall|(t & g & Hg & Hnd)]; [by left|].
    right. exists t. unfold step. rewrite Hg.
    destruct (Hout _ _ Hg) as [[m ->]|[r ->]]; [|done].
    rewrite Hh. by eexists.
Qed.

(** Every run can be continued until every goroutine has returned. *)
Lemma exec_completes ms l0 c :
  invariant ms l0 c →
  ∃ schedule c', exec schedule c = Some c' ∧ all_done c'.
Proof.
  remember (remaining_all c) as n eqn:Hn. revert c Hn.
  induction n as [n IH] using lt_wf_ind. intros c -> Hinv.
  destruct (step_progress _ _ _ Hinv) as [Hdone|(t & c1 & Hstep)].
  - by exists [], c.
  - pose proof (step_remaining _ _ _ Hstep) as Hrem.
    destruct (IH (remaining_all c1) ltac:(lia) c1 eq_refl) as (schedule & c' & Hexec & Hdone).
    { by eapply step_invariant. }
    exists (t :: schedule), c'. cbn. by rewrite Hstep.
Qed.

(** Distinct colors that are not in the store, added one after the other:
    every call reports [true], and the colors are appended in order. *)
Lemma run_seq_adds (cs l : list string) :
  NoDup cs → (∀ color, color ∈ cs → color ∉ l) →
  run_seq (MAdd <$> cs) l =
  ((λ color, inl ("Successfully added '" +:+ color
                    +:+ "' to your favorite colors!", true)) <$> cs,
   l ++ cs).
Proof.
  revert l. induction cs as [|color cs IH]; intros l Hnd Hfresh; cbn.
  - by rewrite app_nil_r.
  - apply NoDup_cons in Hnd as [Hcolor Hnd]. unfold AddColor_body.
    assert (range_find color l = false) as ->.
    { apply range_find_false, Hfresh. by left. }
    rewrite IH; [by rewrite <-app_assoc|done|].
    intros x Hx. rewrite not_elem_of_app, list_elem_of_singleton. split.
    + apply Hfresh. by right.
    + by intros ->.
Qed.

(** The colors of the goroutines listed in [order]. *)
Lemma method_of_adds (cs : list string) (order : list nat) :
  order ≡ₚ seq 0 (length cs) →
  ∃ cs', cs' ≡ₚ cs ∧
    method_of (MAdd <$> cs) <$> order = MAdd <$> cs' ∧
    Forall2 (λ t color, cs !! t = Some color) order cs'.
Proof.
  intros Hperm.
  assert (Forall (λ t, t < length cs) order) as Hlt.
  { rewrite Hperm. apply Forall_forall. intros t Ht%elem_of_seq. lia. }
  assert ((λ t, default "" (cs !! t)) <$> seq 0 (length cs) = cs) as Hseq.
  { apply list_eq. intros i. rewrite list_lookup_fmap.
    destruct (cs !! i) as [color|] eqn:Hi.
    - rewrite lookup_seq_lt by (by eapply lookup_lt_Some). cbn. by rewrite Hi.
    - rewrite lookup_seq_ge by (by apply lookup_ge_None). done. }
  exists ((λ t, default "" (cs !! t)) <$> order). split_and!.
  - by rewrite Hperm, Hseq.
  - rewrite <-list_fmap_compose. apply Forall_fmap_ext_1.
    eapply Forall_impl; [done|]. intros t Ht. cbn. unfold method_of.
    rewrite list_lookup_fmap.
    destruct (lookup_lt_is_Some_2 cs t Ht) as [color ->]. done.
  - apply Forall2_fmap_r, Forall_Forall2_diag.
    eapply Forall_impl; [done|]. intros t Ht. cbn.
    destruct (lookup_lt_is_Some_2 cs t Ht) as [color ->]. done.
Qed.

(** C10.  Goroutines that call [AddColor], [RemoveColor] and [ClearColors]
    at the same time, with any schedule of their statements that the lock
    allows: the run can always be continued until every call has returned
    (no schedule leaves a goroutine blocked for ever), and once every call
    has returned, the colors and the results of the calls are those of the
    calls made one after the other in some order.  In particular, [N] calls
    of [AddColor] with [N] distinct colors on the empty store all report
    [true], and the store holds [N] colors at the end. *)
Theorem concurrent_calls_linearizable ms l0 schedule c :
  exec schedule (init l0 ms) = Some c →
  (∃ schedule' c',
     exec (schedule ++ schedule') (init l0 ms) = Some c' ∧ all_done c') ∧
  (all_done c →
   (∃ order rs,
      order ≡ₚ seq 0 (length ms) ∧
      run_seq (method_of ms <$> order) l0 = (rs, colors c) ∧
      Forall2 (returned c) order rs) ∧
   (∀ cs, l0 = [] → ms = MAdd <$> cs → NoDup cs →
      (Count_body (colors c)).1 = length cs ∧
      ∀ t color, cs !! t = Some color →
        returned c t (inl ("Successfully added '" +:+ color
                             +:+ "' to your favorite colors!", true)))).
Proof.
  intros Hexec.
  assert (invariant ms l0 c) as Hinv
    by (eapply exec_invariant; [apply init_invariant|done]).
  split.
  - destruct (exec_completes _ _ _ Hinv) as (schedule' & c' & Hexec' & Hdone).
    exists schedule', c'. by rewrite (exec_app _ _ _ _ Hexec).
  - intros Hdone.
    destruct (all_done_linearized _ _ _ Hinv Hdone) as (order & rs & Hperm & Hrun & Hres).
    split; [by exists order, rs|]. intros cs -> -> Hnd.
    rewrite length_fmap in Hperm.
    destruct (method_of_adds _ _ Hperm) as (cs' & Hcs' & Hms & Horder).
    rewrite Hms, run_seq_adds in Hrun.
    + injection Hrun as <- <-. cbn. split; [by rewrite Hcs'|].
      intros t color Ht.
      assert (t ∈ order) as [i Hi]%list_elem_of_lookup.
      { rewrite Hperm, elem_of_seq. apply lookup_lt_Some in Ht. lia. }
      destruct (Forall2_lookup_l _ _ _ _ _ Hres Hi) as (r & Hr & Hret).
      destruct (Forall2_lookup_l _ _ _ _ _ Horder Hi) as (color' & Hcolor' & Ht').
      rewrite list_lookup_fmap, Hcolor' in Hr. cbn in Hr.
      injection Hr as <-. congruence.
    + by rewrite Hcs'.
    + intros color _. apply not_elem_of_nil.
Qed.

End goroutines_properties.

(** * The theorems on concrete requests and runs *)

Section examples.
Import storage mcp.

(** A [tools/call] request whose [name] is a number, on a fresh server. *)
Lemma handleToolsCall_invalid_params_witness :
  let req := JSONRPCRequest.mk "2.0" (Int 1) "tools/call"
               (Map {[ "name" := Int 7 ]}) in
  JSONRPCRequest.Method req = "tools/call" ∧
  (∀ params, JSONRPCRequest.Params req = Map params →
     ∀ toolName, params !! "name" ≠ Some (Str toolName)) ∧
  ∃ resp e,
    HandleRequest fixed_range req NewServer = (resp, NewServer) ∧
    JSONRPCResponse.Result resp = Nil ∧
    JSONRPCResponse.Error resp = Some e ∧
    JSONRPCError.Code e = (-32602)%Z ∧
    (JSONRPCError.Message e = "Invalid params" ∨
     JSONRPCError.Message e = "Tool name required").
Proof.
  intros req.
  assert (JSONRPCRequest.Method req = "tools/call") as Hm by reflexivity.
  assert (∀ params, JSONRPCRequest.Params req = Map params →
            ∀ toolName, params !! "name" ≠ Some (Str toolName)) as Hbad.
  { intros params [= <-] toolName Hn. vm_compute in Hn. discriminate. }
  split; [exact Hm|]. split; [exact Hbad|].
  exact (handleToolsCall_invalid_params fixed_range req NewServer Hm Hbad).
Defined.


(** A request for a method that does not exist, after one color was
    added. *)
Lemma error_response_leaves_store_witness :
  let s := {| tools := tools NewServer;
              storage := (AddColor "blue" NewColorStorage).2 |} in
  let req := JSONRPCRequest.mk "2.0" (Str "a") "not/a/method" Nil in
  JSONRPCResponse.Error (HandleRequest fixed_range req s).1 ≠ None ∧
  (HandleRequest fixed_range req s).2 = s ∧
  storage.colors (storage (HandleRequest fixed_range req s).2)
    = storage.colors (storage s).
Proof.
  intros s req.
  assert (JSONRPCResponse.Error (HandleRequest fixed_range req s).1 ≠ None) as He
    by (vm_compute; discriminate).
  split; [exact He|].
  exact (error_response_leaves_store fixed_range req s He).
Defined.

(** The tests of the packages [storage] and [mcp], and the end-to-end
    properties of the specification, run on the embedding. *)

Example fmt_d_decimal :
  fmt_d 0 = "0" ∧ fmt_d 7 = "7" ∧ fmt_d 10 = "10" ∧ fmt_d 123 = "123".
Proof. vm_compute. done. Qed.

Example TestColorStorage_AddColor :
  let '((message1, added1), cs1) := AddColor "blue" NewColorStorage in
  let '((message2, added2), cs2) := AddColor "blue" cs1 in
  added1 = true ∧
  message1 = "Successfully added 'blue' to your favorite colors!" ∧
  added2 = false ∧
  message2 = "Color 'blue' is already in your favorites" ∧
  (Count cs2).1 = 1.
Proof. vm_compute. done. Qed.

Example AddColor_is_case_sensitive :
  storage.colors (storage.run NewColorStorage [CallAdd "Blue"; CallAdd "blue"])
    = ["Blue"; "blue"].
Proof. reflexivity. Qed.

Example TestColorStorage_RemoveColor :
  let '((_, removed0), cs0) := RemoveColor "nonexistent" NewColorStorage in
  let '(_, cs1) := AddColor "green" cs0 in
  let '((_, removed1), cs2) := RemoveColor "green" cs1 in
  let '((_, removed2), cs3) := RemoveColor "green" cs2 in
  removed0 = false ∧ removed1 = true ∧ removed2 = false ∧ (Count cs3).1 = 0.
Proof. vm_compute. done. Qed.

Example TestColorStorage_ClearColors :
  let cs := storage.run NewColorStorage [CallAdd "red"; CallAdd "blue"; CallAdd "green"] in
  (ClearColors NewColorStorage).1.2 = 0 ∧
  (ClearColors cs).1 = ("Successfully cleared 3 favorite colors!", 3) ∧
  (Count (ClearColors cs).2).1 = 0.
Proof. vm_compute. done. Qed.

Example add_blue_then_get_colors :
  let call_tool name arguments :=
    JSONRPCRequest.mk "2.0" (Int 1) "tools/call"
      (Map {[ "name" := Str name; "arguments" := Map arguments ]}) in
  let '(resp1, s1) :=
    HandleRequest fixed_range (call_tool "add_color" {[ "color" := Str "blue" ]})
      NewServer in
  let '(resp2, s2) := HandleRequest fixed_range (call_tool "get_colors" ∅) s1 in
  JSONRPCResponse.Error resp1 = None ∧
  JSONRPCResponse.Result resp1
    = Map (text_content "Successfully added 'blue' to your favorite colors!") ∧
  JSONRPCResponse.Result resp2
    = Map (text_content ("Your favorite colors (1 total):" +:+ nl
                           +:+ "1. blue" +:+ nl)).
Proof. vm_compute. done. Qed.

Example add_color_without_color :
  let req := JSONRPCRequest.mk "2.0" (Int 1) "tools/call"
               (Map {[ "name" := Str "add_color"; "arguments" := Map ∅ ]}) in
  JSONRPCError.Code <$> JSONRPCResponse.Error (HandleRequest fixed_range req NewServer).1
    = Some (-32602)%Z.
Proof. reflexivity. Qed.

Example unknown_tool_and_unknown_method :
  let req1 := JSONRPCRequest.mk "2.0" (Int 1) "tools/call"
                (Map {[ "name" := Str "unknown_tool" ]}) in
  let req2 := JSONRPCRequest.mk "2.0" (Int 1) "not/a/method" Nil in
  JSONRPCError.Code <$> JSONRPCResponse.Error (HandleRequest fixed_range req1 NewServer).1
    = Some (-32601)%Z ∧
  JSONRPCError.Code <$> JSONRPCResponse.Error (HandleRequest fixed_range req2 NewServer).1
    = Some (-32601)%Z.
Proof. vm_compute. done. Qed.

Example TestServer_ToolsList :
  let req := JSONRPCRequest.mk "2.0" (Int 1) "tools/list" (Map ∅) in
  match JSONRPCResponse.Result (HandleRequest fixed_range req NewServer).1 with
  | Map result =>
      match result !! "tools" with
      | Some (ToolSlice tools) =>
          length tools = 4 ∧
          ∀ name, name ∈ ["add_color"; "get_colors"; "remove_color"; "clear_colors"] →
                  name ∈ Tool.Name <$> tools
      | _ => False
      end
  | _ => False
  end.
Proof.
  vm_compute. split; [done|]. intros name Hname.
  repeat (apply elem_of_cons in Hname as [->|Hname]);
    [| | | |by apply elem_of_nil in Hname];
    repeat first [apply list_elem_of_here | apply list_elem_of_further].
Qed.

End examples.

Section goroutines_examples.
Import storage goroutines.

(** Two goroutines add "red" and "blue"; the second one gets the lock
    first. *)
Lemma concurrent_calls_linearizable_witness :
  let ms := [MAdd "red"; MAdd "blue"] in
  let schedule := [1; 1; 1; 1; 0; 0; 0; 0] in
  let c := {| colors := ["blue"; "red"]; holder := None;
              goroutines :=
                [Done (inl ("Successfully added 'red' to your favorite colors!", true));
                 Done (inl ("Successfully added 'blue' to your favorite colors!", true))] |} in
  exec schedule (init [] ms) = Some c ∧
  (∃ schedule' c',
     exec (schedule ++ schedule') (init [] ms) = Some c' ∧ all_done c') ∧
  (all_done c →
   (∃ order rs,
      order ≡ₚ seq 0 (length ms) ∧
      run_seq (method_of ms <$> order) [] = (rs, colors c) ∧
      Forall2 (returned c) order rs) ∧
   (∀ cs, ([] : list string) = [] → ms = MAdd <$> cs → NoDup cs →
      (Count_body (colors c)).1 = length cs ∧
      ∀ t color, cs !! t = Some color →
        returned c t (inl ("Successfully added '" +:+ color
                             +:+ "' to your favorite colors!", true)))).
Proof.
  intros ms schedule c.
  assert (exec schedule (init [] ms) = Some c) as Hexec by (vm_compute; reflexivity).
  split; [exact Hexec|].
  exact (concurrent_calls_linearizable ms [] schedule c Hexec).
Defined.

End goroutines_examples.

Section slices_examples.
Import storage slices.

(** A slice that shares the array of [cs.colors] is no snapshot: after
    [RemoveColor] has moved the elements down in the array, the slice header
    read before the call shows the moved elements.  The slice returned by
    [GetColors] before the same call still shows the three colors. *)
Lemma shared_slice_is_overwritten :
  let cs := run double_spare NewColorStorage [CallAdd "a"; CallAdd "b"; CallAdd "c"] in
  let shared := colors cs in
  let '((snapshot, _), cs1) := GetColors cs in
  let cs2 := run double_spare cs1 [CallRemove "a"] in
  elements (heap cs) shared = ["a"; "b"; "c"] ∧
  elements (heap cs2) (colors cs2) = ["b"; "c"] ∧
  elements (heap cs2) shared = ["b"; "c"; "c"] ∧
  elements (heap cs2) snapshot = ["a"; "b"; "c"].
Proof. vm_compute. done. Qed.

End slices_examples.

(** * Further properties of the color store *)

Section storage_further.
Import storage.

Lemma RemoveColor_colors_NoDup cs color :
  NoDup (colors cs) →
  ∀ x, x ∈ colors (RemoveColor color cs).2 ↔ x ∈ colors cs ∧ x ≠ color.
Proof.
  intros Hnd x. destruct (decide (color ∈ colors cs)) as [Hin|Hin].
  - destruct (RemoveColor_present _ _ Hin) as (l1 & l2 & Hl & Hl1 & ->). cbn.
    rewrite Hl in Hnd |- *.
    apply NoDup_app in Hnd as (_ & _ & [Hl2 _]%NoDup_cons).
    rewrite !elem_of_app, elem_of_cons. split.
    + intros [Hx|Hx]; (split; [tauto|by intros ->]).
    + intros [[Hx|[->|Hx]] Hne]; tauto.
  - rewrite RemoveColor_absent by done. cbn. split; [|tauto].
    intros Hx. split; [done|by intros ->].
Qed.

(** X1.  The store as a set.  After [AddColor] the store holds the color
    and what it held before, nothing else.  After [RemoveColor] on a store
    reached from the empty one, it holds what it held before except the
    color. *)
Theorem store_membership (calls : list Call) (color x : string) :
  let cs := run NewColorStorage calls in
  (x ∈ colors (AddColor color cs).2 ↔ x = color ∨ x ∈ colors cs) ∧
  (x ∈ colors (RemoveColor color cs).2 ↔ x ∈ colors cs ∧ x ≠ color).
Proof.
  intros cs. split.
  - destruct (decide (color ∈ colors cs)) as [Hin|Hin].
    + rewrite AddColor_present by done. cbn. split; [tauto|].
      by intros [->|?].
    + rewrite AddColor_absent by done. cbn.
      rewrite elem_of_app, list_elem_of_singleton. tauto.
  - apply RemoveColor_colors_NoDup, run_colors_NoDup, NoDup_nil_2.
Qed.

(** X2.  Adding a color the store does not hold and removing it again gives
    back the colors as they were, in the same order. *)
Theorem AddColor_then_RemoveColor cs color :
  color ∉ colors cs →
  colors (RemoveColor color (AddColor color cs).2).2 = colors cs.
Proof.
  intros Hnotin. rewrite AddColor_absent by done.
  unfold RemoveColor, locked, RemoveColor_body. cbn.
  destruct (range_index color 0 (colors cs ++ [color])) as [i|] eqn:Hi.
  - apply range_index_Some in Hi as (l1 & l2 & Hl & Hl1 & ->). cbn.
    assert (l1 = colors cs ∧ l2 = []) as [-> ->].
    { destruct l2 as [|y l2 _] using rev_ind.
      - by apply app_inj_tail in Hl as [-> _].
      - rewrite app_comm_cons, app_assoc in Hl.
        apply app_inj_tail in Hl as [Hcs _].
        destruct Hnotin. rewrite Hcs, elem_of_app, elem_of_cons. tauto. }
    rewrite take_app_length, drop_app_add', drop_ge; cbn; [|lia|done].
    by rewrite app_nil_r.
  - apply range_index_None in Hi. destruct Hi.
    rewrite elem_of_app, list_elem_of_singleton. tauto.
Qed.

(** X3.  Removing a color the store holds and adding it again moves it to
    the end: the other colors keep their order. *)
Theorem RemoveColor_then_AddColor (calls : list Call) (color : string) :
  let cs := run NewColorStorage calls in
  color ∈ colors cs →
  ∃ l1 l2, colors cs = l1 ++ color :: l2 ∧
    colors (AddColor color (RemoveColor color cs).2).2 = l1 ++ l2 ++ [color].
Proof.
  intros cs Hin.
  assert (NoDup (colors cs)) as Hnd by apply run_colors_NoDup, NoDup_nil_2.
  pose proof (RemoveColor_colors_NoDup cs color Hnd color) as Hgone.
  destruct (RemoveColor_present _ _ Hin) as (l1 & l2 & Hl & Hl1 & Hrm).
  exists l1, l2. split; [done|]. rewrite Hrm in Hgone |- *.
  rewrite AddColor_absent; cbn; [by rewrite <-app_assoc|].
  cbn in Hgone. rewrite Hgone. tauto.
Qed.

(** X4.  Adding a list of colors to the empty store, one after the other,
    leaves the list with every repetition after the first dropped. *)
Theorem AddColor_keeps_first_occurrences (cs : list string) :
  colors (run NewColorStorage (CallAdd <$> cs))
    = reverse (remove_dups (reverse cs)).
Proof.
  induction cs as [|color cs IH] using rev_ind; [done|].
  rewrite fmap_app. unfold run in *. rewrite foldl_app. cbn [fmap list_fmap foldl call].
  set (cs0 := foldl (λ cs c, call c cs) NewColorStorage (CallAdd <$> cs)) in *.
  assert (color ∈ colors cs0 ↔ color ∈ reverse cs) as Hmem.
  { rewrite IH, elem_of_reverse, elem_of_remove_dups. done. }
  rewrite reverse_app, reverse_singleton. cbn [app remove_dups].
  destruct (decide_rel elem_of color (reverse cs)) as [Hin|Hin].
  - rewrite AddColor_present by (by apply Hmem). done.
  - rewrite AddColor_absent by (by rewrite Hmem). cbn [colors snd].
    by rewrite IH, reverse_cons.
Qed.

(** X5.  The number of colors after a sequence of calls is at most the
    number before plus the number of [AddColor] calls in the sequence. *)
Theorem Count_bounded_by_adds (calls : list Call) (cs : ColorStorage) :
  (Count (run cs calls)).1 ≤
  (Count cs).1
    + sum_list ((λ c, match c with CallAdd _ => 1 | _ => 0 end) <$> calls).
Proof.
  cbn. revert cs. induction calls as [|c calls IH]; intros cs; cbn; [lia|].
  etrans; [apply IH|].
  assert (length (colors (call c cs))
          ≤ length (colors cs) + match c with CallAdd _ => 1 | _ => 0 end);
    [|lia].
  destruct c as [color| |color| |]; cbn [call]; try (cbn; lia).
  - destruct (decide (color ∈ colors cs)) as [Hin|Hin].
    + rewrite AddColor_present by done. cbn. lia.
    + rewrite AddColor_absent by done. cbn. rewrite length_app. cbn. lia.
  - destruct (decide (color ∈ colors cs)) as [Hin|Hin].
    + destruct (RemoveColor_present _ _ Hin) as (l1 & l2 & Hl & _ & ->). cbn.
      rewrite Hl, !length_app. cbn. lia.
    + rewrite RemoveColor_absent by done. cbn. lia.
Qed.

End storage_further.

(** * Further properties of the store on the slice in memory *)

Section slices_further.
Import storage slices.

Variable spare : nat → nat → nat.

(** X6.  The methods on the slice in memory, with [append] writing in place
    or moving to a new array and whatever room the runtime leaves, go
    through the same colors and return the same results as the methods of
    [storage] on lists. *)
Theorem slices_refine_storage (calls : list Call) (color : string) :
  let cs := run spare NewColorStorage calls in
  let abstract := storage.run storage.NewColorStorage calls in
  elements (heap cs) (colors cs) = storage.colors abstract ∧
  (AddColor spare color cs).1 = (storage.AddColor color abstract).1 ∧
  (RemoveColor spare color cs).1 = (storage.RemoveColor color abstract).1 ∧
  (ClearColors cs).1 = (storage.ClearColors abstract).1 ∧
  (Count cs).1 = (storage.Count abstract).1 ∧
  (GetColors cs).1.2 = (storage.GetColors abstract).1.2.
Proof.
  intros cs abstract.
  assert (well_formed cs) as Hwf
    by apply run_well_formed, NewColorStorage_well_formed.
  assert (storage.colors abstract = elements (heap cs) (colors cs)) as Habs
    by (by apply run_refines; [apply NewColorStorage_well_formed|]).
  unfold storage.AddColor, storage.RemoveColor, storage.ClearColors,
    storage.Count, storage.GetColors, locked. rewrite Habs.
  split_and!; [done|..].
  - destruct (AddColor_refines spare cs color Hwf) as (r & cs' & -> & _ & _ & ->).
    done.
  - destruct (RemoveColor_refines spare cs color Hwf) as (r & cs' & -> & _ & _ & ->).
    done.
  - destruct (ClearColors_refines cs Hwf) as (r & cs' & -> & _ & _ & ->). done.
  - by rewrite (Count_refines cs Hwf).
  - destruct (GetColors_refines cs Hwf)
      as (sn & text & cs' & -> & _ & _ & _ & _ & ->). done.
Qed.

(** X7.  On a store reached from the empty one, [cs.colors] lies within an
    allocated array, with its length at most its capacity.  The index at
    which the loop of [RemoveColor] stops is below the length, so that
    [cs.colors[:i]] and [cs.colors[i+1:]] are within bounds; the removal is
    done in the array of [cs.colors]: no array is allocated, the capacity
    stays and the length goes down by one. *)
Theorem RemoveColor_in_place (calls : list Call) (color : string) :
  let cs := run spare NewColorStorage calls in
  let cs' := (RemoveColor spare color cs).2 in
  well_formed cs ∧
  match range_index color 0 (elements (heap cs) (colors cs)) with
  | Some i =>
      i + 1 ≤ len (colors cs) ∧
      length (heap cs') = length (heap cs) ∧
      array (colors cs') = array (colors cs) ∧
      offset (colors cs') = offset (colors cs) ∧
      cap (colors cs') = cap (colors cs) ∧
      len (colors cs') + 1 = len (colors cs)
  | None => cs' = cs
  end.
Proof.
  intros cs cs'.
  assert (well_formed cs) as Hwf
    by apply run_well_formed, NewColorStorage_well_formed.
  split; [done|]. destruct Hwf as (arr & Harr & Hlen & Hcap).
  subst cs'. unfold RemoveColor.
  destruct (range_index color 0 _) as [i|] eqn:Hi; [|done].
  assert (i < len (colors cs)) as Hlt.
  { apply range_index_Some in Hi as (l1 & l2 & Hl & _ & ->).
    rewrite <-(length_elements (heap cs) (colors cs) arr) by (done || lia).
    rewrite Hl, length_app. cbn. lia. }
  assert (length (elements (heap cs) (reslice (colors cs) (i + 1) (len (colors cs))))
          = len (colors cs) - (i + 1)) as Htail.
  { rewrite (length_elements _ _ arr); cbn; [done|done|lia]. }
  unfold append. cbn [reslice len cap array offset]. rewrite Htail.
  rewrite Nat.sub_0_r, Nat.add_0_r.
  rewrite decide_True by lia. cbn [snd heap colors array offset cap len].
  rewrite length_store. split_and!; [lia|done|done|done|lia|lia].
Qed.

(** X8.  A call allocates at most one array, and changes no array but the
    one of [cs.colors]: the arrays of the slices handed out before stay as
    they were. *)
Theorem call_allocates_at_most_one (calls : list Call) (c : Call) :
  let cs := run spare NewColorStorage calls in
  let cs' := call spare c cs in
  length (heap cs) ≤ length (heap cs') ≤ length (heap cs) + 1 ∧
  ∀ a, a < length (heap cs) → a ≠ array (colors cs) →
       heap cs' !! a = heap cs !! a.
Proof.
  intros cs cs'.
  assert (well_formed cs) as Hwf
    by apply run_well_formed, NewColorStorage_well_formed.
  destruct (call_well_formed spare c cs Hwf) as [_ (Hle & Hsame & _)].
  split; [split; [done|]|by intros a Ha Hne; apply Hsame].
  destruct Hwf as (arr & Harr & Hlen & Hcap). subst cs'.
  destruct c as [color| |color| |]; cbn [call].
  - unfold AddColor. destruct (range_find _ _); [cbn; lia|].
    unfold append. case_decide; cbn [snd heap];
      rewrite ?length_store, ?length_app; cbn; lia.
  - unfold GetColors, make, copy. cbn [snd heap].
    rewrite length_store, length_app. cbn. lia.
  - unfold RemoveColor. destruct (range_index _ _ _); [|cbn; lia].
    unfold append. case_decide; cbn [snd heap];
      rewrite ?length_store, ?length_app; cbn; lia.
  - unfold ClearColors, make. cbn [snd heap]. rewrite length_app. cbn. lia.
  - cbn. lia.
Qed.

End slices_further.

(** * Further properties of the dispatcher *)

Section dispatcher_further.
Import storage mcp.

Variable map_range : gmap string (Tool.t any) → list (string * Tool.t any).

(** The paths through [HandleRequest]: an error with the server as it was,
    a result with the server as it was ([initialize], [tools/list]), or one
    call of a method of the store whose message is the result. *)
Lemma HandleRequest_paths req s :
  (∃ code message,
     HandleRequest map_range req s = (error_response req code message, s)) ∨
  (JSONRPCRequest.Method req ≠ "tools/call" ∧ ∃ result,
     HandleRequest map_range req s = (result_response req result, s)) ∨
  (JSONRPCRequest.Method req = "tools/call" ∧ ∃ params toolName,
     JSONRPCRequest.Params req = Map params ∧
     params !! "name" = Some (Str toolName) ∧
     ((toolName = "add_color" ∧ ∃ color, color ≠ "" ∧
         default ∅ (assert_map (index params "arguments")) !! "color"
           = Some (Str color) ∧
         HandleRequest map_range req s =
           (result_response req (text_content (AddColor color (storage s)).1.1),
            {| tools := tools s; storage := (AddColor color (storage s)).2 |})) ∨
      (toolName = "get_colors" ∧
         HandleRequest map_range req s =
           (result_response req (text_content (GetColors (storage s)).1.2),
            {| tools := tools s; storage := (GetColors (storage s)).2 |})) ∨
      (toolName = "remove_color" ∧ ∃ color, color ≠ "" ∧
         default ∅ (assert_map (index params "arguments")) !! "color"
           = Some (Str color) ∧
         HandleRequest map_range req s =
           (result_response req (text_content (RemoveColor color (storage s)).1.1),
            {| tools := tools s; storage := (RemoveColor color (storage s)).2 |})) ∨
      (toolName = "clear_colors" ∧
         HandleRequest map_range req s =
           (result_response req (text_content (ClearColors (storage s)).1.1),
            {| tools := tools s; storage := (ClearColors (storage s)).2 |})))).
Proof.
  unfold HandleRequest, handleToolsCall.
  case_decide as Hinit; [right; left; split; [congruence|by eexists]|].
  case_decide as Hlist; [right; left; split; [congruence|by eexists]|].
  case_decide as Hcall; [|left; by eexists _, _].
  destruct (assert_map _) as [params|] eqn:Hp; [|left; by eexists _, _].
  apply assert_map_Some in Hp.
  destruct (assert_string _) as [toolName|] eqn:Hn; [|left; by eexists _, _].
  apply assert_string_index in Hn.
  case_decide as Hadd.
  { rewrite handleAddColor_eq.
    destruct (_ !! "color") as [[| | | |color| | | | | |]|] eqn:Hc;
      try (left; by eexists _, _).
    case_decide; [left; by eexists _, _|].
    right; right. split; [done|]. exists params, toolName.
    split_and!; [done..|]. left. split; [done|]. by exists color. }
  case_decide as Hget.
  { rewrite handleGetColors_eq. right; right. split; [done|].
    exists params, toolName. split_and!; [done..|]. right; left. done. }
  case_decide as Hrm.
  { rewrite handleRemoveColor_eq.
    destruct (_ !! "color") as [[| | | |color| | | | | |]|] eqn:Hc;
      try (left; by eexists _, _).
    case_decide; [left; by eexists _, _|].
    right; right. split; [done|]. exists params, toolName.
    split_and!; [done..|]. right; right; left. split; [done|]. by exists color. }
  case_decide as Hclear; [|left; by eexists _, _].
  unfold handleClearColors. rewrite delegate_text. right; right. split; [done|].
  exists params, toolName. split_and!; [done..|]. right; right; right. done.
Qed.

Lemma locked_mutex {A} acquire release (body : State (list string) A) cs :
  mutex (locked acquire release body cs).2 = mutex cs ++ [acquire; release].
Proof. unfold locked. by destruct (body _). Qed.

(** X9.  What a request can do to the server.  The registered tools are
    never changed.  The store is entered at most once: either not at all
    (the server is as before), or under the read lock (the colors are as
    before), or under the write lock.  The colors change only in a
    [tools/call] of [add_color], [remove_color] or [clear_colors]. *)
Theorem HandleRequest_effect req s :
  let s' := (HandleRequest map_range req s).2 in
  tools s' = tools s ∧
  (s' = s ∨
   (mutex (storage s') = mutex (storage s) ++ [RLock; RUnlock] ∧
    storage.colors (storage s') = storage.colors (storage s)) ∨
   mutex (storage s') = mutex (storage s) ++ [Lock; Unlock]) ∧
  (storage.colors (storage s') ≠ storage.colors (storage s) →
   JSONRPCRequest.Method req = "tools/call" ∧
   ∃ params toolName,
     JSONRPCRequest.Params req = Map params ∧
     params !! "name" = Some (Str toolName) ∧
     toolName ∈ ["add_color"; "remove_color"; "clear_colors"]).
Proof.
  destruct (HandleRequest_paths req s)
    as [(code & message & ->)|[(_ & result & ->)|(Hm & params & toolName & Hp & Hn & H)]];
    cbn; try (split_and!; [done|by left|done]).
  destruct H as [(-> & color & _ & _ & ->)|[(-> & ->)|[(-> & color & _ & _ & ->)|(-> & ->)]]];
    cbn [snd tools storage]; (split_and!; [done| |]);
    try (right; right; apply locked_mutex).
  - intros _. split; [done|]. exists params, "add_color".
    split_and!; [done..|]. apply list_elem_of_here.
  - right; left. done.
  - done.
  - intros _. split; [done|]. exists params, "remove_color".
    split_and!; [done..|]. apply list_elem_of_further, list_elem_of_here.
  - intros _. split; [done|]. exists params, "clear_colors".
    split_and!; [done..|]. do 2 apply list_elem_of_further. apply list_elem_of_here.
Qed.


Lemma range_append_values (l : list (string * Tool.t any)) acc :
  foldl (λ tools kv, tools ++ [kv.2]) acc l = acc ++ l.*2.
Proof.
  revert acc. induction l as [|kv l IH]; intros acc; cbn.
  - by rewrite app_nil_r.
  - by rewrite IH, <-app_assoc.
Qed.

(** The registry after a sequence of [RegisterTool]: under a name is the
    tool registered last under that name. *)
Lemma RegisterTool_lookup (ts : list (Tool.t any)) s0 name tool :
  tools s0 = ∅ →
  tools (foldl (λ s tool, (RegisterTool tool s).2) s0 ts) !! name = Some tool ↔
  Tool.Name tool = name ∧
  ∃ l1 l2, ts = l1 ++ tool :: l2 ∧ name ∉ Tool.Name <$> l2.
Proof.
  intros Hs0. induction ts as [|t ts IH] using rev_ind; cbn.
  - rewrite Hs0, lookup_empty. split; [done|].
    intros (_ & l1 & l2 & Hl & _). by destruct l1.
  - rewrite foldl_app. cbn.
    destruct (decide (Tool.Name t = name)) as [Ht|Ht].
    + rewrite Ht, lookup_insert_eq. split.
      * intros [= <-]. split; [done|]. exists ts, []. split; [done|].
        cbn. apply not_elem_of_nil.
      * intros (Hn & l1 & l2 & Hl & Hnot).
        destruct l2 as [|t' l2 _] using rev_ind.
        { apply app_inj_tail in Hl as [_ Hl]. by rewrite Hl. }
        rewrite app_comm_cons, app_assoc in Hl.
        apply app_inj_tail in Hl as [_ Hl]. subst t'.
        exfalso. apply Hnot. rewrite fmap_app. apply elem_of_app. right.
        cbn. rewrite Ht. apply list_elem_of_here.
    + rewrite lookup_insert_ne by done. rewrite IH. split.
      * intros (Hn & l1 & l2 & -> & Hnot). split; [done|].
        exists l1, (l2 ++ [t]). split; [by rewrite <-app_assoc|].
        rewrite fmap_app. cbn. rewrite elem_of_app, list_elem_of_singleton.
        intros [?|?]; [done|]. by apply Ht.
      * intros (Hn & l1 & l2 & Hl & Hnot). split; [done|].
        destruct l2 as [|t' l2 _] using rev_ind.
        { apply app_inj_tail in Hl as [_ Hl]. subst t. done. }
        rewrite app_comm_cons, app_assoc in Hl.
        apply app_inj_tail in Hl as [-> ->]. exists l1, l2. split; [done|].
        intros Hin. apply Hnot. rewrite fmap_app. apply elem_of_app. by left.
Qed.

(** X11.  [tools/list] after any sequence of [RegisterTool] on a new
    registry: provided the [range] loop visits each entry of the map once,
    the tools listed carry each registered name exactly once, and a tool is
    listed precisely when it is the last one registered under its name.  The
    server is left as it was. *)
Theorem tools_list_after_RegisterTool (ts : list (Tool.t any)) req :
  let s := foldl (λ s tool, (RegisterTool tool s).2)
             {| tools := ∅; storage := NewColorStorage |} ts in
  (∀ m, map_range m ≡ₚ map_to_list m) →
  JSONRPCRequest.Method req = "tools/list" →
  ∃ listed,
    HandleRequest map_range req s
      = (result_response req {[ "tools" := ToolSlice listed ]}, s) ∧
    NoDup (Tool.Name <$> listed) ∧
    ∀ tool, tool ∈ listed ↔
      ∃ l1 l2, ts = l1 ++ tool :: l2 ∧ Tool.Name tool ∉ Tool.Name <$> l2.
Proof.
  intros s Hrange Hm.
  assert (Hlookup : ∀ name tool, tools s !! name = Some tool ↔
    Tool.Name tool = name ∧
    ∃ l1 l2, ts = l1 ++ tool :: l2 ∧ name ∉ Tool.Name <$> l2).
  { intros. by apply RegisterTool_lookup. }
  clearbody s.
  exists (map_range (tools s)).*2. split_and!.
  - unfold HandleRequest. rewrite Hm.
    rewrite decide_False by done. rewrite decide_True by done.
    unfold handleToolsList. by rewrite range_append_values.
  - rewrite Hrange.
    replace (Tool.Name <$> (map_to_list (tools s)).*2)
      with (map_to_list (tools s)).*1; [apply NoDup_fst_map_to_list|].
    rewrite <-list_fmap_compose. apply list_fmap_ext.
    intros i [name tool] Hi%list_elem_of_lookup_2%elem_of_map_to_list.
    apply Hlookup in Hi as [Hn _]. done.
  - intros tool. rewrite Hrange, list_elem_of_fmap. split.
    + intros ([name tool'] & -> & Hin%elem_of_map_to_list).
      apply Hlookup in Hin as [<- Hin]. done.
    + intros Hin. exists (Tool.Name tool, tool). split; [done|].
      apply elem_of_map_to_list, Hlookup. done.
Qed.

Lemma AddColor_elem cs color x :
  x ∈ colors (AddColor color cs).2 → x = color ∨ x ∈ colors cs.
Proof.
  destruct (decide (color ∈ colors cs)) as [Hin|Hin].
  - rewrite AddColor_present by done. by right.
  - rewrite AddColor_absent by done. cbn.
    rewrite elem_of_app, list_elem_of_singleton. tauto.
Qed.

Lemma RemoveColor_elem cs color x :
  x ∈ colors (RemoveColor color cs).2 → x ∈ colors cs.
Proof.
  destruct (decide (color ∈ colors cs)) as [Hin|Hin].
  - destruct (RemoveColor_present _ _ Hin) as (l1 & l2 & Hl & _ & ->). cbn.
    rewrite Hl, !elem_of_app, elem_of_cons. tauto.
  - by rewrite RemoveColor_absent.
Qed.

(** X12.  The server after any sequence of requests, from [NewServer].  The
    four tools are registered as at the start.  The store is the one that
    some sequence of store calls, at most one per request, builds from the
    empty store; its colors are distinct and none of them is the empty
    string. *)
Theorem server_invariant (reqs : list JSONRPCRequest.t) :
  let s := foldl (λ s req, (HandleRequest map_range req s).2) NewServer reqs in
  tools s = tools NewServer ∧
  (∃ calls, storage s = run NewColorStorage calls ∧ length calls ≤ length reqs) ∧
  NoDup (colors (storage s)) ∧
  "" ∉ colors (storage s).
Proof.
  cbn zeta. induction reqs as [|req reqs IH] using rev_ind.
  - split_and!; [done| |apply NoDup_nil_2|apply not_elem_of_nil].
    by exists [].
  - rewrite foldl_app, length_app. cbn [foldl length].
    set (s := foldl _ NewServer reqs) in *.
    destruct IH as (Ht & (calls & Hs & Hlen) & Hnd & Hne). clearbody s.
    assert (Hcall : ∀ c s', tools s' = tools s → storage s' = call c (storage s) →
      (tools s' = tools NewServer ∧
       ∃ calls', storage s' = run NewColorStorage calls' ∧
         length calls' ≤ length reqs + 1) ∧ NoDup (colors (storage s'))).
    { intros c s' Ht' Hs'. split_and!; [congruence| |].
      - exists (calls ++ [c]). unfold run in *. rewrite foldl_app, length_app.
        cbn. split; [congruence|lia].
      - rewrite Hs'. by apply call_colors_NoDup. }
    destruct (HandleRequest_paths req s)
      as [(code & message & ->)|[(_ & result & ->)|(_ & params & toolName & _ & _ & H)]].
    1,2: split_and!; [done| |done|done]; exists calls; split; [done|lia].
    destruct H as [(_ & color & Hcolor & _ & ->)|[(_ & ->)|[(_ & color & _ & _ & ->)|(_ & ->)]]];
      cbn [snd].
    + destruct (Hcall (CallAdd color) {| tools := tools s;
          storage := (AddColor color (storage s)).2 |}) as [[? ?] ?]; [done..|].
      split_and!; [done..|]. cbn [storage].
      intros [?|?]%AddColor_elem; [by apply Hcolor|done].
    + destruct (Hcall CallGet {| tools := tools s;
          storage := (GetColors (storage s)).2 |}) as [[? ?] ?]; [done..|].
      split_and!; [done..|]. done.
    + destruct (Hcall (CallRemove color) {| tools := tools s;
          storage := (RemoveColor color (storage s)).2 |}) as [[? ?] ?]; [done..|].
      split_and!; [done..|]. cbn [storage].
      by intros ?%RemoveColor_elem.
    + destruct (Hcall CallClear {| tools := tools s;
          storage := (ClearColors (storage s)).2 |}) as [[? ?] ?]; [done..|].
      split_and!; [done..|]. cbn. apply not_elem_of_nil.
Qed.

(** X13.  The two tools without a parameter.  A [tools/call] of
    [get_colors] or [clear_colors] never answers with an error, whatever
    the request holds under [arguments].  [get_colors] leaves the colors as
    they are; its text is the fixed sentence for an empty store, and
    otherwise the header with the count followed by one numbered line per
    color, in the order of the store.  [clear_colors] empties the store and
    its text gives the number of colors the store held. *)
Theorem get_and_clear_never_fail req s params toolName :
  JSONRPCRequest.Method req = "tools/call" →
  JSONRPCRequest.Params req = Map params →
  params !! "name" = Some (Str toolName) →
  toolName ∈ ["get_colors"; "clear_colors"] →
  let l := colors (storage s) in
  ∃ text s',
    HandleRequest map_range req s = (result_response req (text_content text), s') ∧
    tools s' = tools s ∧
    if decide (toolName = "get_colors") then
      colors (storage s') = l ∧
      (l = [] → text = "You have no favorite colors yet.") ∧
      (l ≠ [] →
         text = ("Your favorite colors (" +:+ fmt_d (length l)
                   +:+ " total):" +:+ nl)
                +:+ foldr String.append ""
                      (imap (λ k color, fmt_d (k + 1) +:+ ". " +:+ color +:+ nl) l))
    else
      colors (storage s') = [] ∧
      text = "Successfully cleared " +:+ fmt_d (length l) +:+ " favorite colors!".
Proof.
  intros Hm Hp Hn Htool l.
  destruct (HandleRequest_paths req s)
    as [(code & message & Herr)|[(Hne & _)|(_ & params' & toolName' & Hp' & Hn' & H)]].
  - exfalso. revert Herr. unfold HandleRequest, handleToolsCall.
    rewrite Hm, Hp. cbn [assert_map].
    repeat (case_decide; [done|]). case_decide; [|done].
    apply assert_string_index in Hn as ->.
    apply elem_of_cons in Htool as [->|[->|[]%elem_of_nil]%elem_of_cons].
    + rewrite decide_False, decide_True by done.
      by rewrite handleGetColors_eq.
    + rewrite !decide_False, decide_True by done.
      unfold handleClearColors. by rewrite delegate_text.
  - done.
  - rewrite Hp in Hp'. injection Hp' as <-. rewrite Hn in Hn'. injection Hn' as <-.
    destruct H as [(-> & _)|[(-> & ->)|[(-> & _)|(-> & ->)]]].
    + by apply elem_of_cons in Htool as [?|[?|[]%elem_of_nil]%elem_of_cons].
    + eexists _, _. split_and!; [done..|]. rewrite decide_True by done.
      unfold GetColors, locked.
      destruct (GetColors_body_text (colors (storage s))) as (text & -> & ? & ?).
      done.
    + by apply elem_of_cons in Htool as [?|[?|[]%elem_of_nil]%elem_of_cons].
    + eexists _, _. split_and!; [done..|]. by rewrite decide_False.
Qed.

(** X14.  The four outcomes of [add_color] and [remove_color] through the
    dispatcher, for a [color] argument that is a non-empty string.  None of
    them is an error response: that the color was already there, or was not
    found, is told by the text alone, and the colors are then as before.
    Otherwise [add_color] puts the color at the end, and [remove_color]
    deletes its first occurrence. *)
Theorem add_and_remove_outcomes req s params arguments toolName color :
  JSONRPCRequest.Method req = "tools/call" →
  JSONRPCRequest.Params req = Map params →
  params !! "name" = Some (Str toolName) →
  toolName ∈ ["add_color"; "remove_color"] →
  params !! "arguments" = Some (Map arguments) →
  arguments !! "color" = Some (Str color) →
  color ≠ "" →
  let l := colors (storage s) in
  ∃ text s',
    HandleRequest map_range req s = (result_response req (text_content text), s') ∧
    (toolName = "add_color" →
       if decide (color ∈ l) then
         text = "Color '" +:+ color +:+ "' is already in your favorites" ∧
         colors (storage s') = l
       else
         text = "Successfully added '" +:+ color +:+ "' to your favorite colors!" ∧
         colors (storage s') = l ++ [color]) ∧
    (toolName = "remove_color" →
       if decide (color ∈ l) then
         text = "Successfully removed '" +:+ color
                  +:+ "' from your favorite colors!" ∧
         ∃ l1 l2, l = l1 ++ color :: l2 ∧ (color ∉ l1) ∧
           colors (storage s') = l1 ++ l2
       else
         text = "Color '" +:+ color +:+ "' was not found in your favorites" ∧
         colors (storage s') = l).
Proof.
  intros Hm Hp Hn Htool Ha Hc Hcolor l.
  unfold HandleRequest, handleToolsCall. rewrite Hm, Hp. cbn [assert_map].
  repeat (case_decide; [done|]). case_decide; [|done].
  apply assert_string_index in Hn as ->.
  replace (default ∅ (assert_map (index params "arguments"))) with arguments
    by (unfold index; by rewrite Ha).
  apply elem_of_cons in Htool as [->|[->|[]%elem_of_nil]%elem_of_cons].
  - rewrite decide_True by done.
    rewrite handleAddColor_eq, Hc, decide_False by done.
    eexists _, _. split_and!; [done| |done].
    intros _. cbn [storage]. case_decide as Hin.
    + by rewrite AddColor_present.
    + by rewrite AddColor_absent.
  - rewrite !decide_False, decide_True by done.
    rewrite handleRemoveColor_eq, Hc, decide_False by done.
    eexists _, _. split_and!; [done|done|].
    intros _. cbn [storage]. case_decide as Hin.
    + destruct (RemoveColor_present _ _ Hin) as (l1 & l2 & Hl & Hl1 & ->).
      split; [done|]. by exists l1, l2.
    + by rewrite RemoveColor_absent.
Qed.

End dispatcher_further.

(** * The two servers of the repository *)

Section main_properties.
Import storage mcp.

Variable map_range : gmap string (Tool.t any) → list (string * Tool.t any).



End main_properties.

(** * Properties of the transports *)

Section transport_properties.
Import storage mcp transport.

Variable map_range : gmap string (Tool.t any) → list (string * Tool.t any).
Variable Unmarshal Decode : string → JSONRPCRequest.t + string.
Variable Marshal : JSONRPCResponse.t → string + string.
Variable Write_err : ResponseWriter → string → option string.
Variable fmt_v : any → string.

#[local] Abbreviation Run_line := (Run_line map_range Unmarshal Marshal).
#[local] Abbreviation Run_lines := (Run_lines map_range Unmarshal Marshal).
#[local] Abbreviation Run := (Run map_range Unmarshal Marshal).
#[local] Abbreviation requests := (requests Unmarshal).
#[local] Abbreviation serve := (serve map_range).
#[local] Abbreviation printed := (printed Marshal).

(** One turn of the loop: a line that is empty or does not parse leaves the
    server and the standard output; any other line is a request, handled by
    the server, and its response is printed if it can be marshalled. *)
Lemma Run_line_serve line p :
  server (Run_line line p).2 = (serve (requests [line]) (server p)).2 ∧
  stdout (Run_line line p).2
    = stdout p ++ printed (serve (requests [line]) (server p)).1.
Proof.
  unfold transport.Run_line, transport.requests. cbn [omap list_omap].
  case_decide as Hline; [cbn; by rewrite app_nil_r|].
  destruct (Unmarshal line) as [req|err]; [|cbn; by rewrite app_nil_r].
  cbn [transport.serve]. unfold bind, ret, on_server.
  destruct (HandleRequest map_range req (server p)) as [response s].
  unfold transport.printed. cbn [omap list_omap fst snd].
  destruct (Marshal response); cbn; [done|by rewrite app_nil_r].
Qed.

Lemma serve_app reqs1 reqs2 s :
  serve (reqs1 ++ reqs2) s =
  ((serve reqs1 s).1 ++ (serve reqs2 (serve reqs1 s).2).1,
   (serve reqs2 (serve reqs1 s).2).2).
Proof.
  revert s. induction reqs1 as [|req reqs1 IH]; intros s.
  - cbn. by destruct (serve reqs2 s).
  - cbn [app transport.serve]. unfold bind, ret.
    destruct (HandleRequest map_range req s) as [response s1].
    rewrite IH. by destruct (serve reqs1 s1).
Qed.

Lemma Run_lines_serve lines p :
  server (Run_lines lines p).2 = (serve (requests lines) (server p)).2 ∧
  stdout (Run_lines lines p).2
    = stdout p ++ printed (serve (requests lines) (server p)).1.
Proof.
  revert p. induction lines as [|line lines IH]; intros p.
  - cbn. by rewrite app_nil_r.
  - cbn [transport.Run_lines]. unfold bind.
    destruct (Run_line line p) as [[] p1] eqn:Hp1.
    destruct (Run_line_serve line p) as [H1 H2]. rewrite Hp1 in H1, H2.
    cbn [snd] in H1, H2. destruct (IH p1) as [IH1 IH2].
    change (line :: lines) with ([line] ++ lines).
    unfold transport.requests in *. rewrite omap_app, serve_app.
    cbn [fst snd]. rewrite IH1, IH2, H1, H2. split; [done|].
    unfold transport.printed. by rewrite omap_app, app_assoc.
Qed.


(** X16.  The stdio loop as three stages.  The lines that are empty or do
    not parse are dropped; the requests of the other lines are handled by
    the server one after the other; the responses that can be marshalled are
    printed, one per line, in that order.  A response that cannot be
    marshalled is not printed, but the request has been handled.  [Run]
    returns an error exactly when the scanner reports one, after the lines
    read before it have been handled. *)
Theorem Run_serves_wellformed_lines lines scanner_Err p :
  let responses := serve (requests lines) (server p) in
  server (Run lines scanner_Err p).2 = responses.2 ∧
  stdout (Run lines scanner_Err p).2 = stdout p ++ printed responses.1 ∧
  (Run lines scanner_Err p).1
    = (λ err, "error reading input: " +:+ err) <$> scanner_Err.
Proof.
  cbn zeta. unfold transport.Run, bind. cbn [log_Printf].
  match goal with |- context [Run_lines lines ?p1] =>
    destruct (Run_lines_serve lines p1) as [H1 H2];
    destruct (Run_lines lines p1) as [[] p2] end.
  cbn [server stdout snd] in H1, H2.
  by destruct scanner_Err.
Qed.





#[local] Abbreviation handleMCP :=
  (handleMCP map_range Decode Marshal Write_err fmt_v).

(** X19.  The endpoint [/mcp], that is [handleMCP] behind [corsHandler],
    for a request that is not a POST.  The body is not decoded, the server
    is not asked, and nothing is printed or logged.  [OPTIONS] is answered
    by [corsHandler] alone, with its four headers and status 200: the
    headers and the [OPTIONS] branch of [handleMCP] play no part.  Any other
    method passes to [handleMCP], which sets its headers and ends with
    [http.Error] of status 405.  Nothing is written to the body by the
    handlers themselves. *)
Theorem mcp_endpoint_not_POST r w p :
  Method r ≠ "POST" →
  corsHandler handleMCP r w p =
    (w ++ [HeaderSet "Access-Control-Allow-Origin" "*";
           HeaderSet "Access-Control-Allow-Methods" "GET, POST, OPTIONS";
           HeaderSet "Access-Control-Allow-Headers"
             "Content-Type, Authorization, X-Requested-With";
           HeaderSet "Access-Control-Max-Age" "86400"]
       ++ (if decide (Method r = "OPTIONS") then [WriteHeader 200]
           else [HeaderSet "Content-Type" "application/json";
                 HeaderSet "Cache-Control" "no-cache";
                 HeaderSet "Access-Control-Allow-Origin" "*";
                 HeaderSet "Access-Control-Allow-Methods" "GET, POST, OPTIONS";
                 HeaderSet "Access-Control-Allow-Headers"
                   "Content-Type, Authorization, Accept";
                 Error "Method not allowed" 405]),
     p).
Proof.
  intros Hpost. unfold corsHandler, transport.handleMCP.
  case_decide as Hoptions; [by rewrite <-app_assoc|].
  rewrite decide_True by done.
  unfold ret. by rewrite <-!app_assoc.
Qed.

(** X20.  A POST on the endpoint [/mcp].  The handlers first set headers
    only; when the body is written the content type is JSON, the allowed
    headers are those of [handleMCP] (it replaces the value [corsHandler]
    has set) and the max age is the one of [corsHandler].  A body that does
    not decode leaves the server as it was and is answered in the body,
    by the response with error -32700, no id and the text of the decoding
    error as data: neither [WriteHeader] nor [http.Error] is called, so the
    status is the default one.  A body that decodes is handled by the
    server, and the JSON of the response and a line feed are written in one
    [Write]; [http.Error] with status 500 follows only when the response
    cannot be marshalled or the write fails. *)
Theorem mcp_endpoint_POST r w p :
  Method r = "POST" →
  ∃ sets rest p',
    corsHandler handleMCP r w p = (w ++ sets ++ rest, p') ∧
    stdout p' = stdout p ∧
    Forall (λ c, ∃ key value, c = HeaderSet key value) sets ∧
    (∀ h,
       Header h sets !! "Content-Type" = Some "application/json" ∧
       Header h sets !! "Access-Control-Allow-Origin" = Some "*" ∧
       Header h sets !! "Access-Control-Allow-Headers"
         = Some "Content-Type, Authorization, Accept" ∧
       Header h sets !! "Access-Control-Max-Age" = Some "86400") ∧
    match Decode (Body r) with
    | inr err =>
        server p' = server p ∧
        rest =
          match Marshal
                  {| JSONRPCResponse.JSONRPC := "2.0";
                     JSONRPCResponse.ID := Nil;
                     JSONRPCResponse.Result := Nil;
                     JSONRPCResponse.Error :=
                       Some {| JSONRPCError.Code := -32700;
                               JSONRPCError.Message := "Parse error";
                               JSONRPCError.Data := Str err |} |} with
          | inl json => [Write (json +:+ nl)]
          | inr _ => []
          end
    | inl req =>
        server p' = (HandleRequest map_range req (server p)).2 ∧
        rest =
          match Marshal (HandleRequest map_range req (server p)).1 with
          | inl json =>
              Write (json +:+ nl) ::
                match Write_err (w ++ sets) (json +:+ nl) with
                | Some _ => [Error "Internal server error" 500]
                | None => []
                end
          | inr _ => [Error "Internal server error" 500]
          end
    end.
Proof.
  intros Hpost.
  set (sets := [HeaderSet "Access-Control-Allow-Origin" "*";
            HeaderSet "Access-Control-Allow-Methods" "GET, POST, OPTIONS";
            HeaderSet "Access-Control-Allow-Headers"
              "Content-Type, Authorization, X-Requested-With";
            HeaderSet "Access-Control-Max-Age" "86400";
            HeaderSet "Content-Type" "application/json";
            HeaderSet "Cache-Control" "no-cache";
            HeaderSet "Access-Control-Allow-Origin" "*";
            HeaderSet "Access-Control-Allow-Methods" "GET, POST, OPTIONS";
            HeaderSet "Access-Control-Allow-Headers"
              "Content-Type, Authorization, Accept"]).
  assert (Hsets : Forall (λ c, ∃ key value, c = HeaderSet key value) sets).
  { repeat (constructor; [by eexists _, _|]). constructor. }
  assert (Hheader : ∀ h,
    Header h sets !! "Content-Type" = Some "application/json" ∧
    Header h sets !! "Access-Control-Allow-Origin" = Some "*" ∧
    Header h sets !! "Access-Control-Allow-Headers"
      = Some "Content-Type, Authorization, Accept" ∧
    Header h sets !! "Access-Control-Max-Age" = Some "86400").
  { intros h. unfold Header, sets. cbn [foldl].
    split_and!; by simplify_map_eq. }
  assert (Hw : ∀ w0 : ResponseWriter,
    (w0 ++ [HeaderSet "Access-Control-Allow-Origin" "*";
            HeaderSet "Access-Control-Allow-Methods" "GET, POST, OPTIONS";
            HeaderSet "Access-Control-Allow-Headers"
              "Content-Type, Authorization, X-Requested-With";
            HeaderSet "Access-Control-Max-Age" "86400"])
       ++ [HeaderSet "Content-Type" "application/json";
           HeaderSet "Cache-Control" "no-cache";
           HeaderSet "Access-Control-Allow-Origin" "*";
           HeaderSet "Access-Control-Allow-Methods" "GET, POST, OPTIONS";
           HeaderSet "Access-Control-Allow-Headers"
             "Content-Type, Authorization, Accept"] = w0 ++ sets).
  { intros w0. by rewrite <-app_assoc. }
  clearbody sets.
  unfold corsHandler, transport.handleMCP.
  rewrite Hpost. rewrite decide_False by done. rewrite decide_False by done.
  rewrite decide_False by (intros H; by apply H).
  rewrite Hw.
  destruct (Decode (Body r)) as [req|err].
  - unfold bind, ret, log_Printf, on_server, Encode. cbn [server stdout log].
    destruct (HandleRequest map_range req (server p)) as [response s].
    cbn [fst snd].
    destruct (Marshal response) as [json|err]; cbv beta iota;
      [destruct (Write_err (w ++ sets) (json +:+ nl)) eqn:Hwrite|];
      eexists sets, _, _;
      (split_and!; [rewrite <-?app_assoc; reflexivity|try done..]);
      by rewrite Hwrite.
  - unfold bind, ret, log_Printf, Encode.
    destruct (Marshal _) as [json|err'] eqn:Hjson; cbn [snd].
    + eexists sets, _, _.
      split_and!; [rewrite <-app_assoc; reflexivity|done..].
    + exists sets, [], (log_Printf ("JSON decode error: " +:+ err) p).2.
      split_and!; [by rewrite app_nil_r|done..].
Qed.

End transport_properties.

(** * The further properties on concrete inputs *)

Section further_examples.
Import storage mcp transport.

(** "red" added to the store that holds "blue", then removed. *)
Lemma AddColor_then_RemoveColor_witness :
  let cs := (AddColor "blue" NewColorStorage).2 in
  ("red" ∉ colors cs) ∧
  colors (RemoveColor "red" (AddColor "red" cs).2).2 = colors cs.
Proof.
  intros cs.
  assert ("red" ∉ colors cs) as Hnot.
  { vm_compute. intros [[=]|[]%elem_of_nil]%elem_of_cons. }
  split; [exact Hnot|].
  exact (AddColor_then_RemoveColor cs "red" Hnot).
Defined.

(** "red" removed from the store that holds "red" and "blue", then added
    again: it moves to the end. *)
Lemma RemoveColor_then_AddColor_witness :
  let calls := [CallAdd "red"; CallAdd "blue"] in
  let cs := run NewColorStorage calls in
  "red" ∈ colors cs ∧
  ∃ l1 l2, colors cs = l1 ++ "red" :: l2 ∧
    colors (AddColor "red" (RemoveColor "red" cs).2).2 = l1 ++ l2 ++ ["red"].
Proof.
  intros calls cs.
  assert ("red" ∈ colors cs) as Hin by (vm_compute; apply list_elem_of_here).
  split; [exact Hin|].
  exact (RemoveColor_then_AddColor calls "red" Hin).
Defined.


(** Two tools registered under one name and one under another, listed in
    the order of [fixed_range]. *)
Lemma tools_list_after_RegisterTool_witness :
  let tool name description :=
    {| Tool.Name := name; Tool.Description := description;
       Tool.InputSchema := object_schema |} in
  let ts := [tool "a" "first"; tool "b" "other"; tool "a" "second"] in
  let req := JSONRPCRequest.mk "2.0" (Int 1) "tools/list" Nil in
  let s := foldl (λ s tool, (RegisterTool tool s).2)
             {| tools := ∅; storage := NewColorStorage |} ts in
  (∀ m, fixed_range m ≡ₚ map_to_list m) ∧
  JSONRPCRequest.Method req = "tools/list" ∧
  ∃ listed,
    HandleRequest fixed_range req s
      = (result_response req {[ "tools" := ToolSlice listed ]}, s) ∧
    NoDup (Tool.Name <$> listed) ∧
    ∀ tool, tool ∈ listed ↔
      ∃ l1 l2, ts = l1 ++ tool :: l2 ∧ Tool.Name tool ∉ Tool.Name <$> l2.
Proof.
  intros tool ts req s.
  assert (∀ m, fixed_range m ≡ₚ map_to_list m) as Hrange by reflexivity.
  assert (JSONRPCRequest.Method req = "tools/list") as Hm by reflexivity.
  split; [exact Hrange|]. split; [exact Hm|].
  exact (tools_list_after_RegisterTool fixed_range ts req Hrange Hm).
Defined.

(** [clear_colors] with arguments it does not need, on a store of two
    colors. *)
Lemma get_and_clear_never_fail_witness :
  let params : gmap string any :=
    {[ "name" := Str "clear_colors"; "arguments" := Int 5 ]} in
  let req := JSONRPCRequest.mk "2.0" (Int 1) "tools/call" (Map params) in
  let s := {| tools := tools NewServer;
              storage := run NewColorStorage [CallAdd "red"; CallAdd "blue"] |} in
  JSONRPCRequest.Method req = "tools/call" ∧
  JSONRPCRequest.Params req = Map params ∧
  params !! "name" = Some (Str "clear_colors") ∧
  "clear_colors" ∈ ["get_colors"; "clear_colors"] ∧
  let l := colors (storage s) in
  ∃ text s',
    HandleRequest fixed_range req s = (result_response req (text_content text), s') ∧
    tools s' = tools s ∧
    if decide ("clear_colors" = "get_colors") then
      colors (storage s') = l ∧
      (l = [] → text = "You have no favorite colors yet.") ∧
      (l ≠ [] →
         text = ("Your favorite colors (" +:+ fmt_d (length l)
                   +:+ " total):" +:+ nl)
                +:+ foldr String.append ""
                      (imap (λ k color, fmt_d (k + 1) +:+ ". " +:+ color +:+ nl) l))
    else
      colors (storage s') = [] ∧
      text = "Successfully cleared " +:+ fmt_d (length l) +:+ " favorite colors!".
Proof.
  intros params req s.
  assert (JSONRPCRequest.Method req = "tools/call") as Hm by reflexivity.
  assert (JSONRPCRequest.Params req = Map params) as Hp by reflexivity.
  assert (params !! "name" = Some (Str "clear_colors")) as Hn
    by (vm_compute; reflexivity).
  assert ("clear_colors" ∈ ["get_colors"; "clear_colors"]) as Htool
    by apply list_elem_of_further, list_elem_of_here.
  split; [exact Hm|]. split; [exact Hp|]. split; [exact Hn|]. split; [exact Htool|].
  exact (get_and_clear_never_fail fixed_range req s params "clear_colors"
           Hm Hp Hn Htool).
Defined.

(** [remove_color] of "green" on a store that holds "red" and "blue". *)
Lemma add_and_remove_outcomes_witness :
  let arguments : gmap string any := {[ "color" := Str "green" ]} in
  let params : gmap string any :=
    {[ "name" := Str "remove_color"; "arguments" := Map arguments ]} in
  let req := JSONRPCRequest.mk "2.0" (Int 1) "tools/call" (Map params) in
  let s := {| tools := tools NewServer;
              storage := run NewColorStorage [CallAdd "red"; CallAdd "blue"] |} in
  JSONRPCRequest.Method req = "tools/call" ∧
  JSONRPCRequest.Params req = Map params ∧
  params !! "name" = Some (Str "remove_color") ∧
  "remove_color" ∈ ["add_color"; "remove_color"] ∧
  params !! "arguments" = Some (Map arguments) ∧
  arguments !! "color" = Some (Str "green") ∧
  "green" ≠ "" ∧
  ∃ text s',
    HandleRequest fixed_range req s = (result_response req (text_content text), s') ∧
    text = "Color 'green' was not found in your favorites" ∧
    colors (storage s') = ["red"; "blue"].
Proof.
  intros arguments params req s.
  assert (JSONRPCRequest.Method req = "tools/call") as Hm by reflexivity.
  assert (JSONRPCRequest.Params req = Map params) as Hp by reflexivity.
  assert (params !! "name" = Some (Str "remove_color")) as Hn
    by (vm_compute; reflexivity).
  assert ("remove_color" ∈ ["add_color"; "remove_color"]) as Htool
    by apply list_elem_of_further, list_elem_of_here.
  assert (params !! "arguments" = Some (Map arguments)) as Ha
    by (vm_compute; reflexivity).
  assert (arguments !! "color" = Some (Str "green")) as Hc
    by (vm_compute; reflexivity).
  assert ("green" ≠ "") as Hcolor by discriminate.
  split_and!; [exact Hm|exact Hp|exact Hn|exact Htool|exact Ha|exact Hc|exact Hcolor|].
  destruct (add_and_remove_outcomes fixed_range req s params arguments
              "remove_color" "green" Hm Hp Hn Htool Ha Hc Hcolor)
    as (text & s' & Hreq & _ & Hremove).
  exists text, s'. split; [exact Hreq|].
  specialize (Hremove eq_refl).
  rewrite decide_False in Hremove; [exact Hremove|].
  vm_compute. intros [[=]|[[=]|[]%elem_of_nil]%elem_of_cons]%elem_of_cons.
Defined.


(** A GET on the endpoint [/mcp]. *)
Lemma mcp_endpoint_not_POST_witness :
  let Decode (body : string) : JSONRPCRequest.t + string := inr "EOF" in
  let Marshal (response : JSONRPCResponse.t) : string + string := inl "{}" in
  let Write_err (w : ResponseWriter) (data : string) : option string := None in
  let fmt_v (v : any) := "<nil>" in
  let r := {| Method := "GET"; Body := "" |} in
  let p := {| server := NewServer; stdout := []; log := [] |} in
  Method r ≠ "POST" ∧
  corsHandler (handleMCP fixed_range Decode Marshal Write_err fmt_v) r [] p =
    ([HeaderSet "Access-Control-Allow-Origin" "*";
      HeaderSet "Access-Control-Allow-Methods" "GET, POST, OPTIONS";
      HeaderSet "Access-Control-Allow-Headers"
        "Content-Type, Authorization, X-Requested-With";
      HeaderSet "Access-Control-Max-Age" "86400"]
       ++ (if decide (Method r = "OPTIONS") then [WriteHeader 200]
           else [HeaderSet "Content-Type" "application/json";
                 HeaderSet "Cache-Control" "no-cache";
                 HeaderSet "Access-Control-Allow-Origin" "*";
                 HeaderSet "Access-Control-Allow-Methods" "GET, POST, OPTIONS";
                 HeaderSet "Access-Control-Allow-Headers"
                   "Content-Type, Authorization, Accept";
                 Error "Method not allowed" 405]),
     p).
Proof.
  intros Decode Marshal Write_err fmt_v r p.
  assert (Method r ≠ "POST") as Hpost by discriminate.
  split; [exact Hpost|].
  exact (mcp_endpoint_not_POST fixed_range Decode Marshal Write_err fmt_v r [] p
           Hpost).
Defined.

(** A POST on the endpoint [/mcp] whose body does not decode. *)
Lemma mcp_endpoint_POST_witness :
  let Decode (body : string) : JSONRPCRequest.t + string := inr "EOF" in
  let Marshal (response : JSONRPCResponse.t) : string + string := inl "{}" in
  let Write_err (w : ResponseWriter) (data : string) : option string := None in
  let fmt_v (v : any) := "<nil>" in
  let r := {| Method := "POST"; Body := "" |} in
  let p := {| server := NewServer; stdout := []; log := [] |} in
  Method r = "POST" ∧
  ∃ sets p',
    corsHandler (handleMCP fixed_range Decode Marshal Write_err fmt_v) r [] p
      = (sets ++ [Write ("{}" +:+ nl)], p') ∧
    server p' = NewServer.
Proof.
  intros Decode Marshal Write_err fmt_v r p.
  assert (Method r = "POST") as Hpost by reflexivity.
  split; [exact Hpost|].
  destruct (mcp_endpoint_POST fixed_range Decode Marshal Write_err fmt_v r [] p
              Hpost)
    as (sets & rest & p' & Hreq & _ & _ & _ & Hserver & Hrest).
  exists sets, p'. split; [|exact Hserver].
  rewrite Hreq, Hrest. reflexivity.
Defined.

End further_examples.
